(** * overpass: the PACE pixel extractor, its checkpoints and its finalizer

    A shallow embedding of [pace_extractor.py]: the class [PaceExtractor]
    ([find_granules], [_get_checkpoint_path], [_extract_granule_pixel],
    [extract_and_save], [_finalize_station]) and the module function
    [filter_rrc].

    Python integers are [Z]; [//] and [%] are [Z.div] and [Z.modulo] (both
    floor towards minus infinity, as Python does) with the division by zero
    raised explicitly.  The output directory is a finite map from file names
    to NetCDF contents.  The collaborators (catalog, array library, disk) are
    explicit: every call to one of them is recorded in a trace. *)

From Stdlib Require Import ZArith Ascii String DecimalString DecimalN.
From stdpp Require Import base option list sorting gmap strings.

Local Open Scope string_scope.
Local Open Scope Z_scope.

(** ** File names *)

Module Naming.

(** The decimal digits of a natural number, as [format(n, "d")]. *)
Definition digits (n : N) : string := NilEmpty.string_of_uint (N.to_uint n).

Fixpoint zeros (k : nat) : string :=
  match k with
  | O => ""
  | S k' => String "0" (zeros k')
  end.

(** Left padding with zeros up to [width] characters. *)
Definition zfill (width : nat) (s : string) : string :=
  zeros (width - String.length s) ++ s.

(** The format spec [:04d]: sign-aware zero padding, minimal width 4
    (the sign counts in the width). *)
Definition fmt_04d (z : Z) : string :=
  if z <? 0 then String "-" (zfill 3 (digits (Z.to_N (- z))))
  else zfill 4 (digits (Z.to_N z)).

(** [f"checkpoint_{station_code}_{product_type}_b{batch_num:04d}.nc"] *)
Definition checkpoint_name (station_code product_type : string) (batch_num : Z) : string :=
  "checkpoint_" ++ station_code ++ "_" ++ product_type ++ "_b"
    ++ fmt_04d batch_num ++ ".nc".

(** [f"{station_code}_{product_type}_final.nc"] *)
Definition final_name (station_code product_type : string) : string :=
  station_code ++ "_" ++ product_type ++ "_final.nc".

(** The literal part of the pattern
    [f"checkpoint_{station_code}_{product_type}_b*.nc"] before the star. *)
Definition checkpoint_prefix (station_code product_type : string) : string :=
  "checkpoint_" ++ station_code ++ "_" ++ product_type ++ "_b".

Fixpoint strip_prefix (p s : string) : option string :=
  match p with
  | "" => Some s
  | String a p' =>
      match s with
      | String b s' => if Ascii.eqb a b then strip_prefix p' s' else None
      | "" => None
      end
  end.

Fixpoint ends_with (suffix s : string) : bool :=
  String.eqb suffix s
  || match s with
     | String _ s' => ends_with suffix s'
     | "" => false
     end.

(** Whether a file name matches [checkpoint_{station}_{product}_b*.nc]:
    the literal prefix, anything for the star, the literal [.nc]. *)
Definition checkpoint_match (station_code product_type name : string) : bool :=
  match strip_prefix (checkpoint_prefix station_code product_type) name with
  | Some rest => ends_with ".nc" rest
  | None => false
  end.

(** The characters [pathlib] gives a meaning of their own in a pattern or
    a path.  A station code or product type holding one of them makes the
    pattern match other names than the ones written; such keys are outside
    this model (see [glob_checkpoints]). *)
Definition plain_char (c : ascii) : bool :=
  negb (Ascii.eqb c "*" || Ascii.eqb c "?" || Ascii.eqb c "[" || Ascii.eqb c "/")%bool.

Fixpoint plain (s : string) : bool :=
  match s with
  | "" => true
  | String c s' => plain_char c && plain s'
  end.

(** Reading a zero-padded number back. *)
Definition value_of (s : string) : option N :=
  N.of_uint <$> NilEmpty.uint_of_string s.

End Naming.

(** ** The collaborators' data *)

Inductive Exception :=
| NameError (name : string)
| KeyError (key : string)
| ValueError (what : string)
| IndexError
| ZeroDivisionError
| OSError (what : string)
| FileNotFoundError (path : string)
| Unmodelled (what : string).

(** The element type of the arrays and the arithmetic numpy does on it.
    The source fixes no width (the files do), so the floating-point format
    is a parameter: what is used of it is that [<] is a strict order (it is
    one on every IEEE format, NaN being comparable to nothing).
    [to_datetime] is pandas' parser of timestamps (nanoseconds since the
    epoch), [None] where it raises. *)
Class ArrayLib := {
  num : Type;
  nsub : num -> num -> num;
  nadd : num -> num -> num;
  nsquare : num -> num;
  nsqrt : num -> num;
  nlt : num -> num -> bool;
  nisnan : num -> bool;
  nan : num;
  to_datetime : string -> option Z;
  nlt_irrefl : forall a, nlt a a = false;
  nlt_trans : forall a b c, nlt a b = true -> nlt b c = true -> nlt a c = true
}.

(** A two-dimensional array (number_of_lines, pixels_per_line), its cells in
    row-major order as numpy stores them. *)
Record Array2 (A : Type) := mkArray2 {
  nlines : nat;
  npixels : nat;
  cells : list A
}.
Arguments mkArray2 {A} _ _ _.
Arguments nlines {A} _.
Arguments npixels {A} _.
Arguments cells {A} _.

Definition shape {A} (a : Array2 A) : nat * nat := (nlines a, npixels a).

(** [a.isel(number_of_lines=iy, pixels_per_line=ix)] *)
Definition isel {A} (a : Array2 A) (iy ix : nat) : Exception + A :=
  if ((iy <? nlines a)%nat && (ix <? npixels a)%nat)%bool then
    match cells a !! (iy * npixels a + ix)%nat with
    | Some v => inr v
    | None => inl IndexError
    end
  else inl IndexError.

(** [np.unravel_index(idx, shape)] for a two-dimensional shape. *)
Definition unravel_index (idx : nat) (shp : nat * nat) : nat * nat :=
  (idx / snd shp, idx mod snd shp)%nat.

Section Model.
Context {AL : ArrayLib}.

(** *** A granule: the three groups of an OCI level-2 file *)

Record NavigationData := mkNav {
  latitude : Array2 num;
  longitude : Array2 num;
  nav_attrs : gmap string string
}.

Record GeophysicalData := mkGeo {
  geo_vars : gmap string (Array2 (list num));
  geo_l2_flags : Array2 Z
}.

Record BandParameters := mkBand {
  band_wavelength : list num
}.

(** A granule handle stands for the file it opens to; a group the file
    lacks is [None]. *)
Record Granule := mkGranule {
  navigation_data : option NavigationData;
  geophysical_data : option GeophysicalData;
  sensor_band_parameters : option BandParameters
}.

(** The [xr.Dataset] built for one pixel: the data variable [var_name] over
    the dimension wavelength, and the coordinates. *)
Record PixelRecord := mkPixel {
  rec_var : string;
  rec_spectrum : list num;
  rec_wavelength : list num;
  rec_time : Z;
  rec_l2_flags : Z;
  rec_lat : num;
  rec_lon : num
}.

(** What a NetCDF file of the output directory holds: records along the
    dimension time, and the global attributes. *)
Record NcFile := mkNc {
  nc_records : list PixelRecord;
  nc_attrs : gmap string string
}.

(** *** The pixel extractor *)

(** Elementwise arithmetic of two arrays over the same dimensions; xarray
    refuses arrays whose sizes differ. *)
Definition zip_arrays (f : num -> num -> num) (a b : Array2 num) : Exception + Array2 num :=
  if decide (shape a = shape b) then
    inr (mkArray2 (nlines a) (npixels a) (zip_with f (cells a) (cells b)))
  else inl (ValueError "conflicting sizes").

Definition map_array (f : num -> num) (a : Array2 num) : Array2 num :=
  mkArray2 (nlines a) (npixels a) (f <$> cells a).

(** [np.sqrt((ds_nav.latitude - lat)**2 + (ds_nav.longitude - lon)**2)] *)
Definition distance (nav : NavigationData) (lat lon : num) : Exception + Array2 num :=
  match zip_arrays nadd
          (map_array (fun p => nsquare (nsub p lat)) (latitude nav))
          (map_array (fun p => nsquare (nsub p lon)) (longitude nav)) with
  | inl e => inl e
  | inr s => inr (map_array nsqrt s)
  end.

(** [dist.argmin()] over the flattened array: NaN cells are skipped, the
    first cell of least value wins; [None] where it raises (no cell, or
    only NaN). *)
Fixpoint argmin_from (i : nat) (best : option (nat * num)) (xs : list num)
  : option (nat * num) :=
  match xs with
  | [] => best
  | x :: xs' =>
      let best' :=
        if nisnan x then best
        else match best with
             | None => Some (i, x)
             | Some (_, b) => if nlt x b then Some (i, x) else best
             end in
      argmin_from (S i) best' xs'
  end.

Definition argmin (a : Array2 num) : Exception + nat :=
  match argmin_from 0 None (cells a) with
  | Some (i, _) => inr i
  | None => inl (ValueError "argmin of an empty or all-NaN array")
  end.

Definition _extract_granule_pixel (file_obj : Granule) (lat lon : num) (var_name : string)
  : Exception + PixelRecord :=
  match navigation_data file_obj with
  | None => inl (OSError "group not found: navigation_data")
  | Some ds_nav =>
  match geophysical_data file_obj with
  | None => inl (OSError "group not found: geophysical_data")
  | Some ds_geo =>
  match sensor_band_parameters file_obj with
  | None => inl (OSError "group not found: sensor_band_parameters")
  | Some ds_band =>
  match distance ds_nav lat lon with
  | inl e => inl e
  | inr dist =>
  match argmin dist with
  | inl e => inl e
  | inr idx =>
  let '(iy, ix) := unravel_index idx (shape dist) in
  match geo_vars ds_geo !! var_name with
  | None => inl (KeyError var_name)
  | Some var =>
  match isel var iy ix with
  | inl e => inl e
  | inr spectrum =>
  match nav_attrs ds_nav !! "time_coverage_start" with
  | None => inl (KeyError "time_coverage_start")
  | Some stamp =>
  match to_datetime stamp with
  | None => inl (ValueError "unknown datetime string format")
  | Some time =>
  match isel (geo_l2_flags ds_geo) iy ix with
  | inl e => inl e
  | inr flags =>
  match isel (latitude ds_nav) iy ix with
  | inl e => inl e
  | inr plat =>
  match isel (longitude ds_nav) iy ix with
  | inl e => inl e
  | inr plon =>
  if decide (length spectrum = length (band_wavelength ds_band)) then
    inr (mkPixel var_name spectrum (band_wavelength ds_band) time flags plat plon)
  else inl (ValueError "conflicting sizes for dimension wavelength")
  end end end end end end end end end end end end.

(** *** The world: output directory, disk, catalog, trace *)

Inductive Event :=
| EvSearch (short_name : string) (point : num * num) (temporal : string * string) (count : Z)
| EvExists (name : string)
| EvGlob (station_code product_type : string)
| EvOpen (granules : list Granule)
| EvExtract (file_obj : Granule)
| EvRead (name : string)
| EvWrite (name : string) (content : NcFile)
| EvUnlink (name : string).

(** [dir] is the output directory (file name to content); [disk_ok] tells
    for which names a write goes through; [leftover] tells what a write
    that fails leaves at its path: nothing new ([None]: the path is as it
    was) or a file, a truncated one say; [catalog] answers
    [earthaccess.search_data]; [trace] lists the collaborator calls made so
    far, oldest first.  A path is given by its name inside [output_dir]. *)
Record World := mkWorld {
  dir : gmap string NcFile;
  disk_ok : string -> bool;
  leftover : string -> NcFile -> option NcFile;
  catalog : string -> num * num -> string * string -> Z -> Exception + list Granule;
  trace : list Event
}.

Definition emit (e : Event) (w : World) : World :=
  mkWorld (dir w) (disk_ok w) (leftover w) (catalog w) (trace w ++ [e]).

Definition set_dir (d : gmap string NcFile) (w : World) : World :=
  mkWorld d (disk_ok w) (leftover w) (catalog w) (trace w).

(** Computations that may raise and that act on the world; what was done
    before an exception stays done. *)
Definition M (A : Type) : Type := World -> (Exception + A) * World.

Definition ret {A} (a : A) : M A := fun w => (inr a, w).
Definition raise {A} (e : Exception) : M A := fun w => (inl e, w).
Definition bind {A B} (m : M A) (k : A -> M B) : M B :=
  fun w => match m w with
           | (inl e, w') => (inl e, w')
           | (inr a, w') => k a w'
           end.
Definition lift {A} (r : Exception + A) : M A := fun w => (r, w).
Definition tell (e : Event) : M unit := fun w => (inr tt, emit e w).

End Model.

Notation "'let!' x ':=' m 'in' k" := (bind m (fun x => k))
  (at level 10, x name, m at level 100, k at level 200).
Notation "m ';;' k" := (bind m (fun _ => k))
  (at level 100, k at level 200, right associativity).

(** ** The extractor *)

(** Python's [a % b] and [a // b] on integers. *)
Definition py_mod (a b : Z) : Exception + Z :=
  if b =? 0 then inl ZeroDivisionError else inr (a mod b).

Definition py_floordiv (a b : Z) : Exception + Z :=
  if b =? 0 then inl ZeroDivisionError else inr (a / b).

(** [l[start:]], a negative [start] counting from the end. *)
Definition py_slice_from {A} (l : list A) (start : Z) : list A :=
  if start <? 0 then drop (Z.to_nat (Z.max 0 (Z.of_nat (length l) + start))) l
  else drop (Z.to_nat start) l.

(** The names a module-level lookup finds: what the module imports and
    defines, and the builtins its f-strings use. *)
Definition module_globals : list string :=
  ["Path"; "earthaccess"; "xr"; "np"; "pd"; "logger"; "tqdm"; "PaceExtractor";
   "filter_rrc"; "len"].

(** Evaluating the names of an f-string in a function whose local names
    are [locals]: the first name bound nowhere raises. *)
Fixpoint lookup_names (locals names : list string) : Exception + unit :=
  match names with
  | [] => inr tt
  | n :: names' =>
      if existsb (String.eqb n) (locals ++ module_globals)%list
      then lookup_names locals names'
      else inl (NameError n)
  end.

Record PaceExtractor := mkExtractor {
  output_dir : string;
  batch_size : Z
}.

(** [PaceExtractor(output_dir="pace_data", batch_size=50)].  The directory
    [__init__] creates is the one the world describes. *)
Definition default_extractor : PaceExtractor := mkExtractor "pace_data" 50.

Section Pipeline.
Context {AL : ArrayLib}.

Definition time_le (a b : PixelRecord) : Prop := rec_time a <= rec_time b.

#[global] Instance time_le_dec a b : Decision (time_le a b).
Proof. unfold time_le. apply _. Defined.

(** *** Collaborator calls *)

(** [path.exists()] *)
Definition path_exists (name : string) : M bool :=
  fun w => (inr (bool_decide (is_Some (dir w !! name))), emit (EvExists name) w).

(** The names of a directory that match the checkpoint pattern of a key,
    sorted as Python sorts paths of one directory (by code point). *)
Definition list_checkpoints (station_code product_type : string)
    (d : gmap string NcFile) : list string :=
  merge_sort String.le
    (filter (fun name => Naming.checkpoint_match station_code product_type name = true)
            (fst <$> map_to_list d)).

(** [sorted(list(self.output_dir.glob(f"checkpoint_{station_code}_{product_type}_b*.nc")))].
    For keys made of plain characters the pattern is its literal prefix,
    the star, and [.nc]; other keys are not modelled. *)
Definition glob_checkpoints (station_code product_type : string) : M (list string) :=
  fun w =>
    if (Naming.plain station_code && Naming.plain product_type)%bool then
      (inr (list_checkpoints station_code product_type (dir w)),
       emit (EvGlob station_code product_type) w)
    else (inl (Unmodelled "glob metacharacters in the key"), w).

(** The directory after a write that failed: the path holds what the
    failure left there, if it left a file; every other path is as it was. *)
Definition failed_write (name : string) (content : NcFile) (w : World)
  : gmap string NcFile :=
  match leftover w name content with
  | Some f => <[name := f]> (dir w)
  | None => dir w
  end.

(** [ds.to_netcdf(path)]: replaces the file; where the disk refuses, the
    call raises and the path is left with what the failure leaves. *)
Definition to_netcdf (name : string) (content : NcFile) : M unit :=
  fun w =>
    let w' := emit (EvWrite name content) w in
    if disk_ok w name then (inr tt, set_dir (<[name := content]> (dir w)) w')
    else (inl (OSError name), set_dir (failed_write name content w) w').

(** [path.unlink()] *)
Definition unlink (name : string) : M unit :=
  fun w =>
    let w' := emit (EvUnlink name) w in
    match dir w !! name with
    | Some _ => (inr tt, set_dir (delete name (dir w)) w')
    | None => (inl (FileNotFoundError name), w')
    end.

(** Reading one NetCDF file of the directory. *)
Definition open_dataset (name : string) : M NcFile :=
  fun w =>
    let w' := emit (EvRead name) w in
    match dir w !! name with
    | Some f => (inr f, w')
    | None => (inl (FileNotFoundError name), w')
    end.

(** [earthaccess.open(granules)]: one file object per handle, in order.
    The call is taken to succeed; an error of it is not modelled. *)
Definition earthaccess_open (granules : list Granule) : M (list Granule) :=
  fun w => (inr granules, emit (EvOpen granules) w).

(** [earthaccess.search_data(short_name=..., point=..., temporal=..., count=...)] *)
Definition search_data (short_name : string) (point : num * num)
    (temporal : string * string) (count : Z) : M (list Granule) :=
  fun w => (catalog w short_name point temporal count,
            emit (EvSearch short_name point temporal count) w).

(** *** find_granules *)

Definition find_granules (self : PaceExtractor) (product_type : string) (lat lon : num)
    (temporal_range : string * string) : M (list Granule) :=
  let locals := ["self"; "product_type"; "lat"; "lon"; "temporal_range";
                 "short_name"; "results"] in
  let short_name :=
    if String.eqb product_type "Rrs" then "PACE_OCI_L2_AOP" else "PACE_OCI_L2_RRC" in
  lift (lookup_names locals ["product_type"; "lat"; "lon"; "temporal"]);;
  let! results := search_data short_name (lon, lat) temporal_range (-1) in
  lift (lookup_names locals ["len"; "results"; "product_type"]);;
  ret results.

(** *** _get_checkpoint_path *)

Definition _get_checkpoint_path (self : PaceExtractor) (station_code product_type : string)
    (batch_index : Z) : Exception + string :=
  match py_floordiv batch_index (batch_size self) with
  | inl e => inl e
  | inr batch_num => inr (Naming.checkpoint_name station_code product_type batch_num)
  end.

(** *** _finalize_station *)

(** [xr.open_mfdataset(checkpoints, combine='nested', concat_dim="time")]:
    the files are read in the order given and their records laid end to
    end; the attributes are those of the first file. *)
Fixpoint read_all (names : list string) : M (list NcFile) :=
  match names with
  | [] => ret []
  | name :: names' =>
      let! f := open_dataset name in
      let! fs := read_all names' in
      ret (f :: fs)
  end.

Definition concat_files (fs : list NcFile) : NcFile :=
  mkNc (concat (nc_records <$> fs))
       (match fs with f :: _ => nc_attrs f | [] => ∅ end).

(** [ds.sortby('time')], a stable sort. *)
Definition sortby_time (ds : NcFile) : NcFile :=
  mkNc (merge_sort time_le (nc_records ds)) (nc_attrs ds).

Definition set_attr (key value : string) (ds : NcFile) : NcFile :=
  mkNc (nc_records ds) (<[key := value]> (nc_attrs ds)).

Fixpoint unlink_all (names : list string) : M unit :=
  match names with
  | [] => ret tt
  | cp :: names' => unlink cp;; unlink_all names'
  end.

Definition _finalize_station (self : PaceExtractor) (station_code product_type : string)
    (final_path : string) : M (option string) :=
  let locals := ["self"; "station_code"; "product_type"; "final_path";
                 "checkpoints"; "ds"; "final_ds"; "cp"] in
  let! checkpoints := glob_checkpoints station_code product_type in
  match checkpoints with
  | [] =>
      lift (lookup_names locals ["station_code"]);;
      ret None
  | _ :: _ =>
      lift (lookup_names locals ["station_code"; "len"; "checkpoints"]);;
      let! files := read_all checkpoints in
      let final_ds :=
        set_attr "station_code" station_code (sortby_time (concat_files files)) in
      to_netcdf final_path final_ds;;
      unlink_all checkpoints;;
      lift (lookup_names locals ["station_code"; "product_type"; "final_path"]);;
      ret (Some final_path)
  end.

(** *** extract_and_save *)

Definition loop_locals : list string :=
  ["self"; "station_code"; "granules"; "lat"; "lon"; "product_type"; "final_path";
   "checkpoints"; "total_granules"; "processed_count"; "remaining_granules";
   "var_name"; "current_batch"; "files"; "i"; "f"; "ds_pixel"; "global_idx";
   "batch_path"; "e"].

(** The statements of the [try] block after [current_batch.append(ds_pixel)]:
    they return the batch to go on with. *)
Definition save_if_due (self : PaceExtractor) (station_code product_type : string)
    (processed_count total_granules : Z) (i : nat) (current_batch : list PixelRecord)
  : M (list PixelRecord) :=
  let global_idx := processed_count + Z.of_nat i + 1 in
  let! r := lift (py_mod global_idx (batch_size self)) in
  if ((r =? 0) || (global_idx =? total_granules))%bool then
    let! batch_path := lift (_get_checkpoint_path self station_code product_type global_idx) in
    to_netcdf batch_path (mkNc current_batch ∅);;
    lift (lookup_names loop_locals ["batch_path"; "global_idx"; "total_granules"]);;
    ret []
  else ret current_batch.

(** The [for] loop over the opened files.  [i] is the index [enumerate]
    gives; an exception raised anywhere in the [try] block is logged and
    the loop goes on with the next file, the batch being as the block left
    it. *)
Fixpoint extract_loop (self : PaceExtractor) (station_code product_type : string)
    (lat lon : num) (var_name : string) (processed_count total_granules : Z)
    (i : nat) (files : list Granule) (current_batch : list PixelRecord) (w : World)
  : list PixelRecord * World :=
  match files with
  | [] => (current_batch, w)
  | f :: files' =>
      let continue := extract_loop self station_code product_type lat lon var_name
                        processed_count total_granules (S i) files' in
      let w1 := emit (EvExtract f) w in
      match _extract_granule_pixel f lat lon var_name with
      | inl e => continue current_batch w1
      | inr ds_pixel =>
          let current_batch1 := (current_batch ++ [ds_pixel])%list in
          match save_if_due self station_code product_type processed_count
                  total_granules i current_batch1 w1 with
          | (inl e, w2) => continue current_batch1 w2
          | (inr current_batch2, w2) => continue current_batch2 w2
          end
      end
  end.

(** The extraction phase of [extract_and_save]: from the slice of the
    granules to the end of the loop. *)
Definition extract_remaining (self : PaceExtractor) (station_code product_type : string)
    (granules : list Granule) (lat lon : num) (processed_count : Z) : M unit :=
  let total_granules := Z.of_nat (length granules) in
  let remaining_granules := py_slice_from granules processed_count in
  let var_name := if String.eqb product_type "Rrs" then "Rrs" else "Rrc" in
  let! files := earthaccess_open remaining_granules in
  fun w =>
    (inr tt, snd (extract_loop self station_code product_type lat lon var_name
                    processed_count total_granules 0 files [] w)).

Definition extract_and_save (self : PaceExtractor) (station_code : string)
    (granules : list Granule) (lat lon : num) (product_type : string) : M (option string) :=
  let final_path := Naming.final_name station_code product_type in
  let! present := path_exists final_path in
  if present then
    lift (lookup_names loop_locals ["station_code"; "product_type"]);;
    ret (Some final_path)
  else
    let! checkpoints := glob_checkpoints station_code product_type in
    let total_granules := Z.of_nat (length granules) in
    let processed_count := Z.of_nat (length checkpoints) * batch_size self in
    if ((processed_count >=? total_granules) && (total_granules >? 0))%bool then
      lift (lookup_names loop_locals ["station_code"]);;
      _finalize_station self station_code product_type final_path
    else
      lift (lookup_names loop_locals
              ["station_code"; "product_type"; "processed_count"; "total_granules"]);;
      extract_remaining self station_code product_type granules lat lon processed_count;;
      _finalize_station self station_code product_type final_path.

(** *** filter_rrc *)

(** [1<<1 | 1<<3 | 1<<5] *)
Definition l2_excluded : Z :=
  Z.lor (Z.lor (Z.shiftl 1 1) (Z.shiftl 1 3)) (Z.shiftl 1 5).

(** [ds.where(mask)] on one record: where the condition is false the data
    variable is NaN throughout; the coordinates stay. *)
Definition where_record (keep : bool) (r : PixelRecord) : PixelRecord :=
  if keep then r
  else mkPixel (rec_var r) ((fun _ => nan) <$> rec_spectrum r) (rec_wavelength r)
         (rec_time r) (rec_l2_flags r) (rec_lat r) (rec_lon r).

Definition l2_keep (r : PixelRecord) : bool :=
  Z.land (rec_l2_flags r) l2_excluded =? 0.

Definition filter_rrc (ds : list PixelRecord) : list PixelRecord :=
  let mask := l2_keep <$> ds in
  zip_with where_record mask ds.

End Pipeline.

(** ** Notions the statements use *)

Section Notions.
Context {AL : ArrayLib}.

(** The distance of a pixel at [(plat, plon)] to the target, in the words
    of the specification: sqrt((lat_pix - lat)^2 + (lon_pix - lon)^2). *)
Definition pixel_distance (lat lon plat plon : num) : num :=
  nsqrt (nadd (nsquare (nsub plat lat)) (nsquare (nsub plon lon))).

(** An array whose cells fill its shape. *)
Definition array_wf {A} (a : Array2 A) : Prop :=
  length (cells a) = (nlines a * npixels a)%nat.

(** The outcome of the extraction of one granule, as the loop sees it. *)
Definition pixel_of (lat lon : num) (var_name : string) (f : Granule) : option PixelRecord :=
  match _extract_granule_pixel f lat lon var_name with
  | inr r => Some r
  | inl _ => None
  end.

(** The records of the granules of a list that extract, in order. *)
Definition extracted (lat lon : num) (var_name : string) (fs : list Granule)
  : list PixelRecord :=
  omap (pixel_of lat lon var_name) fs.

(** The variable read for a product type. *)
Definition var_of (product_type : string) : string :=
  if String.eqb product_type "Rrs" then "Rrs" else "Rrc".

(** The calls of a trace that open granule streams, and the granules its
    extractions read. *)
Definition opened (tr : list Event) : list (list Granule) :=
  omap (fun e => match e with EvOpen gs => Some gs | _ => None end) tr.

Definition extractions (tr : list Event) : list Granule :=
  omap (fun e => match e with EvExtract g => Some g | _ => None end) tr.

Definition writes (tr : list Event) : list (string * NcFile) :=
  omap (fun e => match e with EvWrite n c => Some (n, c) | _ => None end) tr.

Definition unlinks (tr : list Event) : list string :=
  omap (fun e => match e with EvUnlink n => Some n | _ => None end) tr.

(** The world with some more events in its trace. *)
Definition emit_all (evs : list Event) (w : World) : World :=
  mkWorld (dir w) (disk_ok w) (leftover w) (catalog w) (trace w ++ evs).

(** What [argmin_from] keeps while it scans: the best cell so far is a
    cell seen, is no NaN, and no cell seen that is no NaN is below it. *)
Definition best_of (seen : list num) (best : option (nat * num)) : Prop :=
  match best with
  | None => forall k x, seen !! k = Some x -> nisnan x = true
  | Some (j, b) =>
      seen !! j = Some b ∧ nisnan b = false
      ∧ forall k x, seen !! k = Some x -> nisnan x = false -> nlt x b = false
  end.

(** The contents of the files of a list of names. *)
Definition files_of (d : gmap string NcFile) (names : list string) : list NcFile :=
  omap (fun x => d !! x) names.

(** The directory without the files of a list of names. *)
Fixpoint delete_all (names : list string) (d : gmap string NcFile) : gmap string NcFile :=
  match names with
  | [] => d
  | x :: names' => delete_all names' (delete x d)
  end.

(** What [_finalize_station] writes as the final artifact of a directory. *)
Definition final_content (station_code product_type : string) (d : gmap string NcFile)
  : NcFile :=
  set_attr "station_code" station_code
    (sortby_time (concat_files (files_of d (list_checkpoints station_code product_type d)))).

End Notions.

(** ** Notions of the extraction loop *)

Section LoopNotions.
Context {AL : ArrayLib}.
Variables (self : PaceExtractor) (station_code product_type : string).
Variables (lat lon : num) (var_name : string).
Variables (processed_count total_granules : Z).
Variable n : nat.

Local Abbreviation name := (Naming.checkpoint_name station_code product_type).
Local Abbreviation global_idx i := (processed_count + Z.of_nat i + 1).

(** The world after a checkpoint write that went through. *)
Definition written (k : Z) (recs : list PixelRecord) (w : World) : World :=
  mkWorld (<[name k := mkNc recs ∅]> (dir w)) (disk_ok w) (leftover w) (catalog w)
          (trace w ++ [EvWrite (name k) (mkNc recs ∅)]).

(** The world after a batch went through whole: its granules were read,
    then their records were written as checkpoint [k]. *)
Definition flushed (k : Z) (chunk : list Granule) (w : World) : World :=
  written k (extracted lat lon var_name chunk) (emit_all (EvExtract <$> chunk) w).

(** Every granule of a list extracts. *)
Definition all_extract (fs : list Granule) : Prop :=
  Forall (fun f => is_Some (pixel_of lat lon var_name f)) fs.

(** A checkpoint is due at the granule of index [i] of the loop. *)
Definition due (i : nat) : Prop :=
  global_idx i mod batch_size self = 0 ∨ global_idx i = total_granules.

(** The world after [m] full batches from position [k * n] on. *)
Fixpoint batches_world (m : nat) (k : Z) (files : list Granule) (w : World) : World :=
  match m with
  | O => w
  | S m' => batches_world m' (k + 1) (drop n files) (flushed (k + 1) (take n files) w)
  end.

(** The checkpoint names of [m] batches after batch [k]. *)
Definition batch_names (k : Z) (m : nat) : list string :=
  (fun j => name (k + Z.of_nat j + 1)) <$> seq 0 m.

(** A run in which every granule extracts and every write goes through,
    from a position that is a multiple of [n]: the full batches, then the
    short one if granules are left over. *)
Definition run_world (k : Z) (files : list Granule) (w : World) : World :=
  let m := (length files / n)%nat in
  let w' := batches_world m k files w in
  if (length files mod n =? 0)%nat then w'
  else flushed (k + Z.of_nat m) (drop (m * n) files) w'.

End LoopNotions.

(** ** Notions of a run of [extract_and_save] *)

Section RunNotions.
Context {AL : ArrayLib}.

(** The world once the final artifact was looked for and the checkpoints
    were listed. *)
Definition checked (station_code product_type : string) (w : World) : World :=
  emit (EvGlob station_code product_type)
       (emit (EvExists (Naming.final_name station_code product_type)) w).

(** The count of granules a run takes as processed: the number of
    checkpoint files of the key times the batch size. *)
Definition resume_point (self : PaceExtractor) (station_code product_type : string)
    (w : World) : Z :=
  Z.of_nat (length (list_checkpoints station_code product_type (dir w))) * batch_size self.

(** The world at the end of the loop of a run that extracts, before the
    finalizer is called. *)
Definition after_extraction (self : PaceExtractor) (station_code : string)
    (granules : list Granule) (lat lon : num) (product_type : string) (w : World) : World :=
  let processed_count := resume_point self station_code product_type w in
  let remaining_granules := py_slice_from granules processed_count in
  snd (extract_loop self station_code product_type lat lon (var_of product_type)
         processed_count (Z.of_nat (length granules)) 0 remaining_granules []
         (emit (EvOpen remaining_granules) (checked station_code product_type w))).

(** The events a computation added to the trace of [w]. *)
Definition new_events (w w' : World) : list Event :=
  drop (length (trace w)) (trace w').

End RunNotions.

(** ** Notions of the further properties *)

Section WriteNotions.
Context {AL : ArrayLib}.
Variables (station_code product_type : string).

(** The writes of a list of events are checkpoints of the key, not empty,
    made of records that satisfy [Q]. *)
Definition good_writes (Q : PixelRecord -> Prop) (evs : list Event) : Prop :=
  forall nm c, (nm, c) ∈ writes evs ->
    Naming.checkpoint_match station_code product_type nm = true
    ∧ nc_records c <> [] ∧ forall r, r ∈ nc_records c -> Q r.

End WriteNotions.

Section SingleNotions.
Context {AL : ArrayLib}.
Variables (station_code product_type : string) (lat lon : num) (var_name : string).

(** The checkpoints a loop with a batch size of 1 writes after position
    [g]: one per granule that extracts, named by the position of the
    granule. *)
Fixpoint singles (g : Z) (files : list Granule) : list (string * PixelRecord) :=
  match files with
  | [] => []
  | f :: files' =>
      match pixel_of lat lon var_name f with
      | Some r => (Naming.checkpoint_name station_code product_type (g + 1), r)
                    :: singles (g + 1) files'
      | None => singles (g + 1) files'
      end
  end.

(** The directory after one-record files were written in turn. *)
Definition store_singles (l : list (string * PixelRecord)) (d : gmap string NcFile)
  : gmap string NcFile :=
  foldl (fun d x => <[x.1 := mkNc [x.2] ∅]> d) d l.

End SingleNotions.

Section DiskNotions.
Context {AL : ArrayLib}.

(** The world on another disk: [f] tells which writes go through. *)
Definition with_disk (f : string -> bool) (w : World) : World :=
  mkWorld (dir w) f (leftover w) (catalog w) (trace w).

End DiskNotions.

(** ** A concrete array library and sample granules

    Integers with a NaN ([None]): arithmetic carries NaN along, a comparison
    with NaN is false, the square root of a negative number is NaN.
    Timestamps are read as decimal numbers. *)

Module Sample.

Definition lift2 (f : Z -> Z -> Z) (a b : option Z) : option Z :=
  match a, b with
  | Some x, Some y => Some (f x y)
  | _, _ => None
  end.

Definition lt (a b : option Z) : bool :=
  match a, b with
  | Some x, Some y => x <? y
  | _, _ => false
  end.

Definition sqrt (a : option Z) : option Z :=
  match a with
  | Some x => if x <? 0 then None else Some (Z.sqrt x)
  | None => None
  end.

Definition parse_time (s : string) : option Z :=
  match NilEmpty.uint_of_string s with
  | Some d => Some (Z.of_N (N.of_uint d))
  | None => None
  end.

Definition lib : ArrayLib.
Proof.
  refine {| num := option Z;
            nsub := lift2 Z.sub;
            nadd := lift2 Z.add;
            nsquare := fun a => lift2 Z.mul a a;
            nsqrt := sqrt;
            nlt := lt;
            nisnan := fun a => bool_decide (a = None);
            nan := None;
            to_datetime := parse_time |}.
  - intros [a|]; [apply Z.ltb_irrefl|done].
  - intros [a|] [b|] [c|]; cbn; try done. rewrite !Z.ltb_lt. lia.
Defined.

#[local] Existing Instance lib.

(** A granule of one line and two pixels at latitudes 10 and 20 (longitude
    5), flags 0 and 2, holding the variable [var] over two bands. *)
Definition nav (stamp : string) : NavigationData :=
  mkNav (mkArray2 1 2 [Some 10; Some 20]) (mkArray2 1 2 [Some 5; Some 5])
        {["time_coverage_start" := stamp]}.

Definition spectra : Array2 (list num) :=
  mkArray2 1 2 [[Some 1; Some 2]; [Some 3; Some 4]].

Definition geo (var : string) : GeophysicalData :=
  mkGeo {[var := spectra]} (mkArray2 1 2 [0; 2]).

Definition band : BandParameters := mkBand [Some 400; Some 500].

Definition granule (var stamp : string) : Granule :=
  mkGranule (Some (nav stamp)) (Some (geo var)) (Some band).

(** A granule whose file lacks the three groups: its extraction fails. *)
Definition broken : Granule := mkGranule None None None.

Definition no_catalog : string -> num * num -> string * string -> Z -> Exception + list Granule :=
  fun _ _ _ _ => inr [].

(** An empty output directory on a disk that accepts every write. *)
Definition empty_world : World := mkWorld ∅ (fun _ => true) (fun _ _ => None) no_catalog [].

Definition extractor (n : Z) : PaceExtractor := mkExtractor "pace_data" n.

(** The target of the sample runs: the first pixel of [granule]. *)
Definition lat : num := Some 10.
Definition lon : num := Some 5.

(** An output directory that holds the final artifact of the key
    (TEST, Rrs). *)
Definition finished_world : World :=
  mkWorld {["TEST_Rrs_final.nc" := mkNc [] ∅]} (fun _ => true) (fun _ _ => None) no_catalog [].

(** The record extracted from [granule "Rrs" stamp] at the target (10, 5). *)
Definition pixel (t : Z) : PixelRecord :=
  mkPixel "Rrs" [Some 1; Some 2] [Some 400; Some 500] t 0 (Some 10) (Some 5).


End Sample.

(** ** More sample worlds *)

Module Refusals.
Import Sample.
#[local] Existing Instance lib.

(** An empty output directory on a disk that takes every write but the one
    of the final artifact of the key (ST, Rrs). *)
Definition refusing_world : World :=
  mkWorld ∅ (fun p => negb (String.eqb p "ST_Rrs_final.nc")) (fun _ _ => None) no_catalog [].

(** The same, on a disk where the failed write of the final artifact
    leaves an empty file at the final path. *)
Definition littering_world : World :=
  mkWorld ∅ (fun p => negb (String.eqb p "ST_Rrs_final.nc"))
          (fun p _ => if String.eqb p "ST_Rrs_final.nc" then Some (mkNc [] ∅) else None)
          no_catalog [].

(** The world a failed run on [refusing_world] leaves, on a disk that takes
    every write. *)
Definition repaired_world (gs : list Granule) : World :=
  with_disk (fun _ => true)
    (snd (extract_and_save (extractor 2) "ST" gs lat lon "Rrs" refusing_world)).

End Refusals.

(** * Properties *)

(** ** File names *)

Module NamingFacts.
Import Naming.

Example fmt_04d_pads : fmt_04d 7 = "0007".
Proof. reflexivity. Qed.

Example fmt_04d_grows : fmt_04d 12345 = "12345".
Proof. reflexivity. Qed.

Example fmt_04d_sign : fmt_04d (-1) = "-001".
Proof. reflexivity. Qed.

Example checkpoint_name_b0001 : checkpoint_name "ST" "Rrs" 1 = "checkpoint_ST_Rrs_b0001.nc".
Proof. reflexivity. Qed.

Example final_name_test : final_name "TEST" "Rrs" = "TEST_Rrs_final.nc".
Proof. reflexivity. Qed.

Example match_checkpoint_only :
  checkpoint_match "ST" "Rrs" "checkpoint_ST_Rrs_b0001.nc" = true
  ∧ checkpoint_match "ST" "Rrs" "checkpoint_ST_Rrc_b0001.nc" = false
  ∧ checkpoint_match "ST" "Rrs" "checkpoint_ST_Rrs_b0001.txt" = false
  ∧ checkpoint_match "ST" "Rrs" "ST_Rrs_final.nc" = false.
Proof. repeat split; reflexivity. Qed.

Lemma app_cons x (a b : string) : String x a ++ b = String x (a ++ b).
Proof. reflexivity. Qed.

Lemma app_nil (b : string) : "" ++ b = b.
Proof. reflexivity. Qed.

Lemma append_assoc (a b c : string) : (a ++ b) ++ c = a ++ (b ++ c).
Proof. induction a as [|x a IH]; [done|]. by rewrite !app_cons, IH. Qed.

Lemma length_append (a b : string) :
  String.length (a ++ b) = (String.length a + String.length b)%nat.
Proof. induction a as [|x a IH]; [done|]. rewrite app_cons. cbn. by rewrite IH. Qed.

Lemma strip_prefix_app (p s : string) : strip_prefix p (p ++ s) = Some s.
Proof.
  induction p as [|a p IH]; [done|]. rewrite app_cons. cbn. by rewrite Ascii.eqb_refl.
Qed.

Lemma strip_prefix_length (p s r : string) :
  strip_prefix p s = Some r -> String.length s = (String.length p + String.length r)%nat.
Proof.
  revert s. induction p as [|a p IH]; intros [|b s] H; simplify_eq/=; try done.
  destruct (Ascii.eqb a b); [|done]. by rewrite (IH _ H).
Qed.

Lemma ends_with_app (suffix s : string) : ends_with suffix (s ++ suffix) = true.
Proof.
  induction s as [|a s IH].
  - rewrite app_nil. destruct suffix; cbn; [done|].
    by rewrite Ascii.eqb_refl, String.eqb_refl.
  - rewrite app_cons. cbn. rewrite IH. by rewrite orb_true_r.
Qed.

Lemma value_of_zero (s : string) : value_of (String "0" s) = value_of s.
Proof. unfold value_of. cbn. by destruct (NilEmpty.uint_of_string s). Qed.

Lemma value_of_zeros k s : value_of (zeros k ++ s) = value_of s.
Proof.
  induction k as [|k IH]; [done|]. cbn [zeros]. by rewrite app_cons, value_of_zero.
Qed.

Lemma value_of_digits n : value_of (digits n) = Some n.
Proof.
  unfold value_of, digits. rewrite NilEmpty.usu. cbn.
  by rewrite DecimalN.Unsigned.of_to.
Qed.

Lemma value_of_zfill w n : value_of (zfill w (digits n)) = Some n.
Proof. unfold zfill. by rewrite value_of_zeros, value_of_digits. Qed.

Lemma value_of_minus s : value_of (String "-" s) = None.
Proof. unfold value_of. cbn. by destruct (NilEmpty.uint_of_string s). Qed.

Lemma fmt_04d_inj a b : fmt_04d a = fmt_04d b -> a = b.
Proof.
  unfold fmt_04d. intros H.
  destruct (Z.ltb_spec a 0), (Z.ltb_spec b 0).
  - injection H as H. apply (f_equal value_of) in H.
    rewrite !value_of_zfill in H. injection H as H. lia.
  - apply (f_equal value_of) in H.
    by rewrite value_of_minus, value_of_zfill in H.
  - apply (f_equal value_of) in H.
    by rewrite value_of_minus, value_of_zfill in H.
  - apply (f_equal value_of) in H.
    rewrite !value_of_zfill in H. injection H as H. lia.
Qed.

Lemma app_inj_r (a b c : string) : a ++ c = b ++ c -> a = b.
Proof.
  intros H.
  assert (String.length a = String.length b) as Hlen.
  { apply (f_equal String.length) in H. rewrite !length_append in H. lia. }
  revert b H Hlen. induction a as [|x a IH]; intros [|y b] H Hlen; try done.
  rewrite !app_cons in H. injection H as -> H. f_equal. apply IH; [done|].
  cbn in Hlen. lia.
Qed.

Lemma checkpoint_name_split station product k :
  checkpoint_name station product k
  = checkpoint_prefix station product ++ (fmt_04d k ++ ".nc").
Proof. unfold checkpoint_name, checkpoint_prefix. by rewrite !append_assoc. Qed.

Lemma checkpoint_name_match station product k :
  checkpoint_match station product (checkpoint_name station product k) = true.
Proof.
  unfold checkpoint_match.
  by rewrite checkpoint_name_split, strip_prefix_app, ends_with_app.
Qed.

Lemma checkpoint_name_inj station product a b :
  checkpoint_name station product a = checkpoint_name station product b -> a = b.
Proof.
  rewrite !checkpoint_name_split. intros H.
  apply String.app_inj, app_inj_r in H. by apply fmt_04d_inj.
Qed.

Lemma final_name_no_match station product :
  checkpoint_match station product (final_name station product) = false.
Proof.
  unfold checkpoint_match.
  destruct (strip_prefix _ _) as [r|] eqn:H; [|done].
  apply strip_prefix_length in H.
  unfold final_name, checkpoint_prefix in H.
  rewrite !length_append in H. cbn in H. lia.
Qed.

Lemma final_name_not_checkpoint station product k :
  final_name station product <> checkpoint_name station product k.
Proof.
  intros H. pose proof (final_name_no_match station product) as Hn.
  by rewrite H, checkpoint_name_match in Hn.
Qed.

End NamingFacts.

(** ** The output directory *)

Section Directory.
Context {AL : ArrayLib}.
Implicit Types (d : gmap string NcFile) (w : World).

Lemma elem_of_list_checkpoints station product d x :
  x ∈ list_checkpoints station product d
  ↔ is_Some (d !! x) ∧ Naming.checkpoint_match station product x = true.
Proof.
  unfold list_checkpoints. rewrite merge_sort_Permutation, list_elem_of_filter.
  rewrite list_elem_of_fmap. split.
  - intros [Hm [[k v] [-> Hin]]]. apply elem_of_map_to_list in Hin. eauto.
  - intros [[v Hv] Hm]. split; [done|]. exists (x, v). split; [done|].
    by apply elem_of_map_to_list.
Qed.

Lemma NoDup_list_checkpoints station product d :
  NoDup (list_checkpoints station product d).
Proof.
  unfold list_checkpoints. rewrite merge_sort_Permutation.
  apply NoDup_filter, NoDup_fst_map_to_list.
Qed.

(** A directory whose checkpoints for the key are exactly the names of
    a duplicate-free list lists a permutation of it. *)
Lemma list_checkpoints_perm station product d (l : list string) :
  NoDup l ->
  (forall x, x ∈ l ↔ is_Some (d !! x) ∧ Naming.checkpoint_match station product x = true) ->
  list_checkpoints station product d ≡ₚ l.
Proof.
  intros Hnd Hl. apply NoDup_Permutation; [apply NoDup_list_checkpoints|done|].
  intros x. by rewrite elem_of_list_checkpoints, Hl.
Qed.

Lemma list_checkpoints_nil station product d :
  list_checkpoints station product d = []
  ↔ forall x, is_Some (d !! x) -> Naming.checkpoint_match station product x = false.
Proof.
  split.
  - intros H x Hx. destruct (Naming.checkpoint_match station product x) eqn:Hm; [|done].
    assert (x ∈ list_checkpoints station product d) as Hin
      by by apply elem_of_list_checkpoints.
    rewrite H in Hin. by apply not_elem_of_nil in Hin.
  - intros H. apply Permutation_nil_r.
    apply list_checkpoints_perm; [constructor|].
    intros x. split; [by intros ?%not_elem_of_nil|].
    intros [Hx Hm]. by rewrite (H x Hx) in Hm.
Qed.

(** The listing looks at the names the pattern matches only. *)
Lemma list_checkpoints_ext station product (d d' : gmap string NcFile) :
  (forall x, Naming.checkpoint_match station product x = true ->
     (is_Some (d !! x) ↔ is_Some (d' !! x))) ->
  list_checkpoints station product d = list_checkpoints station product d'.
Proof.
  intros H. apply (Sorted_unique String.le).
  - apply Sorted_merge_sort, _.
  - apply Sorted_merge_sort, _.
  - apply NoDup_Permutation; [apply NoDup_list_checkpoints..|].
    intros x. rewrite !elem_of_list_checkpoints. split; intros [Hx Hm]; (split; [|done]).
    + by apply H.
    + by apply H.
Qed.

(** A failed write changes the directory at its path at most. *)
Lemma lookup_failed_write (name : string) (content : NcFile) (w : World) x :
  x <> name -> failed_write name content w !! x = dir w !! x.
Proof.
  intros Hne. unfold failed_write. destruct (leftover w name content); [|done].
  by rewrite lookup_insert_ne.
Qed.

Lemma lookup_failed_write_eq (name : string) (content : NcFile) (w : World) :
  failed_write name content w !! name
  = match leftover w name content with Some f => Some f | None => dir w !! name end.
Proof.
  unfold failed_write. destruct (leftover w name content); [|done].
  by rewrite lookup_insert_eq.
Qed.

Lemma is_Some_failed_write (name : string) (content : NcFile) (w : World) x :
  is_Some (dir w !! x) -> is_Some (failed_write name content w !! x).
Proof.
  intros Hx. unfold failed_write. destruct (leftover w name content); [|done].
  destruct (decide (name = x)) as [->|Hne].
  - by rewrite lookup_insert_eq.
  - by rewrite lookup_insert_ne.
Qed.

End Directory.

(** ** Small facts on the monad and the log lines *)

Section Basics.
Context {AL : ArrayLib}.
Implicit Types (w : World).

Lemma bind_ret_l {A B} (a : A) (k : A -> M B) w : bind (ret a) k w = k a w.
Proof. done. Qed.

Lemma bind_lift_inr {A B} (a : A) (k : A -> M B) w : bind (lift (inr a)) k w = k a w.
Proof. done. Qed.

Lemma bind_lift_inl {A B} (e : Exception) (k : A -> M B) w :
  bind (lift (inl e)) k w = (inl e, w).
Proof. done. Qed.

Lemma dir_emit e w : dir (emit e w) = dir w.
Proof. done. Qed.

Lemma trace_emit e w : trace (emit e w) = (trace w ++ [e])%list.
Proof. done. Qed.

End Basics.

(** ** find_granules *)

Section FindGranules.
Context {AL : ArrayLib}.

(** C3: the log line before the query names [temporal], which is bound
    nowhere: every call raises NameError there, the catalog is not
    queried and nothing is returned. *)
Theorem find_granules_raises_NameError (self : PaceExtractor) (product_type : string)
    (lat lon : num) (temporal_range : string * string) (w : World) :
  find_granules self product_type lat lon temporal_range w
  = (inl (NameError "temporal"), w).
Proof. reflexivity. Qed.

End FindGranules.

(** ** The short circuit on the final artifact *)

Section FinalExists.
Context {AL : ArrayLib}.

(** The run of a call that finds the final artifact. *)
Lemma extract_and_save_short_circuit (self : PaceExtractor) (station_code : string)
    (granules : list Granule) (lat lon : num) (product_type : string) (w : World) :
  is_Some (dir w !! Naming.final_name station_code product_type) ->
  extract_and_save self station_code granules lat lon product_type w
  = (inr (Some (Naming.final_name station_code product_type)),
     emit (EvExists (Naming.final_name station_code product_type)) w).
Proof.
  intros Hex. unfold extract_and_save, bind, path_exists.
  by rewrite bool_decide_eq_true_2.
Qed.

(** C6: when the final artifact of the key exists, [extract_and_save]
    returns its path; the only collaborator call is the existence test
    (no listing, no opening, no extraction, no write: the trace grows by
    that one event and the directory is untouched), and a second call with
    the same inputs returns the same path in the same way. *)
Theorem extract_and_save_final_exists (self : PaceExtractor) (station_code : string)
    (granules : list Granule) (lat lon : num) (product_type : string) (w : World) :
  is_Some (dir w !! Naming.final_name station_code product_type) ->
  let final_path := Naming.final_name station_code product_type in
  let first := extract_and_save self station_code granules lat lon product_type w in
  let second :=
    extract_and_save self station_code granules lat lon product_type (snd first) in
  fst first = inr (Some final_path)
  ∧ dir (snd first) = dir w
  ∧ trace (snd first) = (trace w ++ [EvExists final_path])%list
  ∧ fst second = inr (Some final_path)
  ∧ dir (snd second) = dir w
  ∧ trace (snd second) = (trace w ++ [EvExists final_path; EvExists final_path])%list.
Proof.
  intros Hex final_path first second. subst first second.
  rewrite (extract_and_save_short_circuit _ _ _ _ _ _ w Hex). cbn [fst snd].
  rewrite extract_and_save_short_circuit by done. cbn [fst snd emit dir trace].
  by rewrite <- app_assoc.
Qed.

End FinalExists.

(** ** filter_rrc *)

Section FilterRrc.
Context {AL : ArrayLib}.

Lemma l2_excluded_eq : l2_excluded = 42.
Proof. reflexivity. Qed.

Lemma land_42_bits (f : Z) :
  Z.land f 42 = 0
  ↔ Z.testbit f 1 = false ∧ Z.testbit f 3 = false ∧ Z.testbit f 5 = false.
Proof.
  split.
  - intros H.
    assert (forall k, Z.testbit 42 k = true -> Z.testbit f k = false) as Hk.
    { intros k Hk. pose proof (Z.land_spec f 42 k) as Hs.
      rewrite H, Z.bits_0, Hk, andb_true_r in Hs. done. }
    repeat split; by apply Hk.
  - intros (H1 & H3 & H5). apply Z.bits_inj'. intros k Hk.
    rewrite Z.land_spec, Z.bits_0.
    destruct (decide (k < 6)) as [Hlt|Hge].
    + assert (k = 0 ∨ k = 1 ∨ k = 2 ∨ k = 3 ∨ k = 4 ∨ k = 5) as Hcase by lia.
      destruct Hcase as [->|[->|[->|[->|[->| ->]]]]];
        rewrite ?H1, ?H3, ?H5; by rewrite ?andb_false_r.
    + rewrite (Z.bits_above_log2 42 k); [by rewrite andb_false_r|lia|].
      change (Z.log2 42) with 5. lia.
Qed.

Lemma filter_rrc_lookup (ds : list PixelRecord) (i : nat) (r : PixelRecord) :
  ds !! i = Some r -> filter_rrc ds !! i = Some (where_record (l2_keep r) r).
Proof.
  unfold filter_rrc. revert i. induction ds as [|x ds IH]; intros [|i] H;
    simplify_eq/=; [done|]. by apply IH.
Qed.

(** C10: [filter_rrc] keeps a record as it is exactly when bits 1, 3 and 5
    of its [l2_flags] are clear, which is [l2_flags & 42 == 0]; a record
    with one of them set has its data replaced by NaN throughout (its
    coordinates stay); the excluded bits are the constant 42. *)
Theorem filter_rrc_masks_bits_1_3_5 (ds : list PixelRecord) (i : nat) (r : PixelRecord) :
  ds !! i = Some r ->
  let clear := Z.testbit (rec_l2_flags r) 1 = false
               ∧ Z.testbit (rec_l2_flags r) 3 = false
               ∧ Z.testbit (rec_l2_flags r) 5 = false in
  l2_excluded = 42
  ∧ (clear ↔ Z.land (rec_l2_flags r) 42 = 0)
  ∧ (clear -> filter_rrc ds !! i = Some r)
  ∧ (¬ clear ->
     filter_rrc ds !! i
     = Some (mkPixel (rec_var r) (replicate (length (rec_spectrum r)) nan)
               (rec_wavelength r) (rec_time r) (rec_l2_flags r) (rec_lat r) (rec_lon r)))
  ∧ ((exists v, v ∈ rec_spectrum r ∧ v <> nan) ->
     (filter_rrc ds !! i = Some r ↔ clear))
  ∧ length (filter_rrc ds) = length ds.
Proof.
  intros Hi clear.
  assert (l2_keep r = true ↔ clear) as Hkeep.
  { unfold l2_keep, clear. rewrite l2_excluded_eq, Z.eqb_eq. apply land_42_bits. }
  assert (forall l : list num, (fun _ => nan) <$> l = replicate (length l) nan) as Hrep.
  { induction l as [|x l IH]; [done|]. cbn. by rewrite IH. }
  rewrite (filter_rrc_lookup ds i r Hi).
  split; [reflexivity|]. split; [symmetry; apply land_42_bits|].
  split; [|split; [|split]].
  - intros Hc. apply Hkeep in Hc. by rewrite Hc.
  - intros Hc. destruct (l2_keep r) eqn:Hk; [by destruct Hc; apply Hkeep|].
    unfold where_record. by rewrite Hrep.
  - intros (v & Hv & Hnan). split; [|intros Hc; apply Hkeep in Hc; by rewrite Hc].
    destruct (l2_keep r) eqn:Hk; [intros _; by apply Hkeep|].
    unfold where_record. rewrite Hrep. intros Heq. exfalso.
    injection Heq as Heq. destruct r as [va sp wl t fl la lo]. cbn in *.
    injection Heq as Heq. rewrite <- Heq in Hv.
    apply elem_of_replicate in Hv as [-> _]. done.
  - unfold filter_rrc. rewrite length_zip_with, length_fmap. lia.
Qed.

End FilterRrc.

(** ** The pixel extractor *)

Section PixelExtractor.
Context {AL : ArrayLib}.

Lemma argmin_from_best (xs seen : list num) (best : option (nat * num)) :
  best_of seen best ->
  best_of (seen ++ xs) (argmin_from (length seen) best xs).
Proof.
  revert seen best. induction xs as [|x xs IH]; intros seen best Hb.
  { by rewrite app_nil_r. }
  cbn [argmin_from].
  replace (seen ++ x :: xs)%list with ((seen ++ [x]) ++ xs)%list
    by by rewrite <- app_assoc.
  replace (S (length seen)) with (length (seen ++ [x])%list)
    by (rewrite length_app; cbn; lia).
  apply IH.
  assert (forall k y, (seen ++ [x])%list !! k = Some y ->
            seen !! k = Some y ∨ (k = length seen ∧ y = x)) as Hsnoc.
  { intros k y Hk. apply lookup_app_Some in Hk as [Hk|[Hge Hk]]; [by left|right].
    apply list_lookup_singleton_Some in Hk as [Hk ->]. split; [lia|done]. }
  destruct (nisnan x) eqn:Hnan.
  - destruct best as [[j b]|]; cbn in *.
    + destruct Hb as (Hj & Hbn & Hmin). repeat split; [|done|].
      * by apply lookup_app_l_Some.
      * intros k y Hk Hy. apply Hsnoc in Hk as [Hk|[_ ->]]; [eauto|congruence].
    + intros k y Hk. apply Hsnoc in Hk as [Hk|[_ ->]]; eauto.
  - destruct best as [[j b]|]; cbn in *.
    + destruct Hb as (Hj & Hbn & Hmin). destruct (nlt x b) eqn:Hlt; cbn.
      * repeat split; [by rewrite lookup_app_r, Nat.sub_diag|done|].
        intros k y Hk Hy. apply Hsnoc in Hk as [Hk|[_ ->]]; [|apply nlt_irrefl].
        destruct (nlt y x) eqn:Hyx; [|done].
        rewrite <- (Hmin k y Hk Hy). symmetry. by apply nlt_trans with x.
      * repeat split; [by apply lookup_app_l_Some|done|].
        intros k y Hk Hy. apply Hsnoc in Hk as [Hk|[_ ->]]; eauto.
    + repeat split; [by rewrite lookup_app_r, Nat.sub_diag|done|].
      intros k y Hk Hy. apply Hsnoc in Hk as [Hk|[_ ->]]; [|apply nlt_irrefl].
      apply Hb in Hk. congruence.
Qed.

Lemma argmin_spec (a : Array2 num) :
  (exists k x, cells a !! k = Some x ∧ nisnan x = false) ->
  exists idx b,
    argmin a = inr idx ∧ cells a !! idx = Some b ∧ nisnan b = false
    ∧ forall k x, cells a !! k = Some x -> nisnan x = false -> nlt x b = false.
Proof.
  intros (k & x & Hk & Hx). unfold argmin.
  pose proof (argmin_from_best (cells a) [] None) as H. cbn in H.
  destruct (argmin_from 0 None (cells a)) as [[idx b]|].
  - exists idx, b. split; [done|]. apply H. intros ? ? Hnil. by destruct k0.
  - exfalso. assert (nisnan x = true) as Hn; [|congruence].
    apply (H ltac:(intros [|?] ? Hnil; done) k x Hk).
Qed.

Lemma distance_cells (nav : NavigationData) (lat lon : num) :
  shape (latitude nav) = shape (longitude nav) ->
  exists dist,
    distance nav lat lon = inr dist
    ∧ shape dist = shape (latitude nav)
    ∧ cells dist
      = zip_with (pixel_distance lat lon) (cells (latitude nav)) (cells (longitude nav)).
Proof.
  intros Hs. unfold distance, zip_arrays. cbn.
  rewrite decide_True by done. eexists. split; [done|]. split; [done|]. cbn.
  generalize (cells (latitude nav)) (cells (longitude nav)).
  induction l as [|x l IH]; intros [|y k]; cbn; try done. by rewrite IH.
Qed.

Lemma unravel_index_spec (idx ny nx : nat) :
  (idx < ny * nx)%nat ->
  let '(iy, ix) := unravel_index idx (ny, nx) in
  (iy < ny)%nat ∧ (ix < nx)%nat ∧ (iy * nx + ix)%nat = idx.
Proof.
  intros H. cbn. assert (nx <> 0%nat) by lia. repeat split.
  - apply Nat.Div0.div_lt_upper_bound. lia.
  - by apply Nat.mod_upper_bound.
  - pose proof (Nat.div_mod_eq idx nx). lia.
Qed.

Lemma isel_inr {A} (a : Array2 A) (iy ix : nat) (v : A) :
  isel a iy ix = inr v
  ↔ (iy < nlines a)%nat ∧ (ix < npixels a)%nat
    ∧ cells a !! (iy * npixels a + ix)%nat = Some v.
Proof.
  unfold isel. split.
  - destruct (_ && _)%bool eqn:Hb; [|done].
    apply andb_true_iff in Hb as [?%Nat.ltb_lt ?%Nat.ltb_lt].
    destruct (cells a !! _) eqn:Hc; [|done]. intros [= ->]. done.
  - intros (Hy & Hx & Hc). apply Nat.ltb_lt in Hy, Hx. by rewrite Hy, Hx, Hc.
Qed.

Lemma isel_in_range {A} (a : Array2 A) (iy ix : nat) :
  array_wf a -> (iy < nlines a)%nat -> (ix < npixels a)%nat ->
  exists v, isel a iy ix = inr v.
Proof.
  intros Hwf Hy Hx.
  destruct (cells a !! (iy * npixels a + ix)%nat) as [v|] eqn:Hc.
  - exists v. by apply isel_inr.
  - apply lookup_ge_None in Hc. unfold array_wf in Hwf. nia.
Qed.

(** C9, amended: on a granule that has the three groups, the variable
    [var_name] and the time-coverage-start attribute, whose arrays fill one
    common grid, whose spectra are as long as the wavelength axis and one
    of whose pixels has a distance that is no NaN, the extraction returns
    the record of a pixel [(iy, ix)] of the grid such that no pixel is
    strictly nearer to the target; the record holds the spectrum of
    [var_name] at [(iy, ix)], the wavelength axis, the latitude, the
    longitude and the flags of that pixel, and the parsed timestamp. *)
Theorem extract_granule_pixel_nearest (g : Granule) (lat lon : num) (var_name : string)
    (nav : NavigationData) (geo : GeophysicalData) (band : BandParameters)
    (var : Array2 (list num)) (stamp : string) (time : Z) :
  navigation_data g = Some nav ->
  geophysical_data g = Some geo ->
  sensor_band_parameters g = Some band ->
  geo_vars geo !! var_name = Some var ->
  nav_attrs nav !! "time_coverage_start" = Some stamp ->
  to_datetime stamp = Some time ->
  shape (longitude nav) = shape (latitude nav) ->
  shape var = shape (latitude nav) ->
  shape (geo_l2_flags geo) = shape (latitude nav) ->
  array_wf (latitude nav) -> array_wf (longitude nav) ->
  array_wf var -> array_wf (geo_l2_flags geo) ->
  (forall v, v ∈ cells var -> length v = length (band_wavelength band)) ->
  (exists jy jx qlat qlon,
      isel (latitude nav) jy jx = inr qlat ∧ isel (longitude nav) jy jx = inr qlon
      ∧ nisnan (pixel_distance lat lon qlat qlon) = false) ->
  exists iy ix plat plon spectrum flags,
    isel (latitude nav) iy ix = inr plat
    ∧ isel (longitude nav) iy ix = inr plon
    ∧ isel var iy ix = inr spectrum
    ∧ isel (geo_l2_flags geo) iy ix = inr flags
    ∧ nisnan (pixel_distance lat lon plat plon) = false
    ∧ (forall jy jx qlat qlon,
          isel (latitude nav) jy jx = inr qlat ->
          isel (longitude nav) jy jx = inr qlon ->
          nisnan (pixel_distance lat lon qlat qlon) = false ->
          nlt (pixel_distance lat lon qlat qlon) (pixel_distance lat lon plat plon) = false)
    ∧ _extract_granule_pixel g lat lon var_name
      = inr (mkPixel var_name spectrum (band_wavelength band) time flags plat plon).
Proof.
  intros Hnav Hgeo Hband Hvar Hstamp Htime Hslon Hsvar Hsfl Wlat Wlon Wvar Wfl Hlen Hsome.
  destruct (distance_cells nav lat lon (eq_sym Hslon)) as (dist & Hdist & Hsd & Hcd).
  assert (forall k qlat qlon,
            cells (latitude nav) !! k = Some qlat ->
            cells (longitude nav) !! k = Some qlon ->
            cells dist !! k = Some (pixel_distance lat lon qlat qlon)) as Hcell.
  { intros k qlat qlon H1 H2. rewrite Hcd. apply lookup_zip_with_Some. eauto. }
  assert (npixels (longitude nav) = npixels (latitude nav)
          ∧ nlines (longitude nav) = nlines (latitude nav)) as [Hnx Hny]
    by (unfold shape in Hslon; by simplify_eq).
  destruct (argmin_spec dist) as (idx & b & Harg & Hb & Hbn & Hmin).
  { destruct Hsome as (jy & jx & qlat & qlon & H1 & H2 & Hq).
    apply isel_inr in H1 as (_ & _ & H1). apply isel_inr in H2 as (_ & _ & H2).
    rewrite Hnx in H2. eauto. }
  assert (idx < nlines (latitude nav) * npixels (latitude nav))%nat as Hidx.
  { apply lookup_lt_Some in Hb. rewrite Hcd, length_zip_with in Hb.
    unfold array_wf in Wlat. lia. }
  pose proof (unravel_index_spec idx _ _ Hidx) as Hun.
  destruct (unravel_index idx (nlines (latitude nav), npixels (latitude nav)))
    as [iy ix] eqn:Hui.
  destruct Hun as (Hiy & Hix & Hflat).
  unfold shape in Hsvar, Hsfl. injection Hsvar as Hvy Hvx. injection Hsfl as Hfy Hfx.
  destruct (isel_in_range (latitude nav) iy ix) as [plat Hplat]; [done..|].
  destruct (isel_in_range (longitude nav) iy ix) as [plon Hplon]; [done|lia..|].
  destruct (isel_in_range var iy ix) as [spectrum Hsp]; [done|lia..|].
  destruct (isel_in_range (geo_l2_flags geo) iy ix) as [flags Hfl]; [done|lia..|].
  assert (b = pixel_distance lat lon plat plon) as ->.
  { apply isel_inr in Hplat as (_ & _ & H1). apply isel_inr in Hplon as (_ & _ & H2).
    rewrite Hnx in H2. rewrite Hflat in H1, H2.
    pose proof (Hcell idx plat plon H1 H2). congruence. }
  exists iy, ix, plat, plon, spectrum, flags.
  repeat split; try done.
  - intros jy jx qlat qlon H1 H2 Hq.
    apply isel_inr in H1 as (_ & _ & H1). apply isel_inr in H2 as (_ & _ & H2).
    rewrite Hnx in H2. eapply Hmin; [by apply Hcell|done].
  - unfold _extract_granule_pixel.
    rewrite Hnav, Hgeo, Hband, Hdist, Harg, Hsd.
    unfold shape. rewrite Hui, Hvar, Hsp, Hstamp, Htime, Hfl, Hplat, Hplon.
    rewrite decide_True; [done|]. apply Hlen.
    apply isel_inr in Hsp as (_ & _ & Hsp). by eapply list_elem_of_lookup_2.
Qed.

(** C9 as stated fails: a granule with the three groups whose geophysical
    group lacks the variable asked for yields no record. *)
Lemma extract_granule_pixel_missing_variable :
  ¬ (forall (AL0 : ArrayLib) (g : @Granule AL0) (lat lon : @num AL0) (var_name : string),
       is_Some (navigation_data g) -> is_Some (geophysical_data g) ->
       is_Some (sensor_band_parameters g) ->
       exists r, _extract_granule_pixel g lat lon var_name = inr r).
Proof.
  intros H.
  destruct (H Sample.lib (Sample.granule "Rrs" "100") (Some 18) (Some 5) "Rrc")
    as [r Hr]; [by eexists..|].
  vm_compute in Hr. discriminate Hr.
Qed.

End PixelExtractor.

(** ** The extraction loop *)

Section Loop.
Context {AL : ArrayLib}.
Variables (self : PaceExtractor) (station_code product_type : string).
Variables (lat lon : num) (var_name : string).
Variables (processed_count total_granules : Z).

Local Abbreviation name := (Naming.checkpoint_name station_code product_type).
Local Abbreviation loop :=
  (extract_loop self station_code product_type lat lon var_name
     processed_count total_granules).
Local Abbreviation save :=
  (save_if_due self station_code product_type processed_count total_granules).
Local Abbreviation global_idx i := (processed_count + Z.of_nat i + 1).
Local Abbreviation written := (written station_code product_type).
Local Abbreviation flushed := (flushed station_code product_type lat lon var_name).
Local Abbreviation all_extract := (all_extract lat lon var_name).
Local Abbreviation due := (due self processed_count total_granules).
Local Abbreviation batch_names := (batch_names station_code product_type).

Lemma save_if_due_zero i cb w :
  batch_size self = 0 -> save i cb w = (inl ZeroDivisionError, w).
Proof. intros H. unfold save_if_due, bind, lift, py_mod. by rewrite H. Qed.

Lemma save_if_due_skip i cb w :
  batch_size self <> 0 ->
  global_idx i mod batch_size self <> 0 -> global_idx i <> total_granules ->
  save i cb w = (inr cb, w).
Proof.
  intros HN Hm Ht. unfold save_if_due, bind, lift, py_mod.
  apply Z.eqb_neq in HN, Hm, Ht. by rewrite HN, Hm, Ht.
Qed.

Lemma save_if_due_flush i cb w :
  batch_size self <> 0 ->
  global_idx i mod batch_size self = 0 ∨ global_idx i = total_granules ->
  disk_ok w (name (global_idx i / batch_size self)) = true ->
  save i cb w = (inr [], written (global_idx i / batch_size self) cb w).
Proof.
  intros HN Hdue Hok.
  unfold save_if_due, bind, lift, py_mod, _get_checkpoint_path, py_floordiv, to_netcdf.
  apply Z.eqb_neq in HN. rewrite HN.
  assert (((global_idx i mod batch_size self =? 0)
           || (global_idx i =? total_granules))%bool = true) as ->.
  { apply orb_true_iff. rewrite !Z.eqb_eq. done. }
  by rewrite Hok.
Qed.

Lemma save_if_due_refused i cb w :
  batch_size self <> 0 ->
  global_idx i mod batch_size self = 0 ∨ global_idx i = total_granules ->
  disk_ok w (name (global_idx i / batch_size self)) = false ->
  save i cb w
  = (inl (OSError (name (global_idx i / batch_size self))),
     set_dir (failed_write (name (global_idx i / batch_size self)) (mkNc cb ∅) w)
       (emit (EvWrite (name (global_idx i / batch_size self)) (mkNc cb ∅)) w)).
Proof.
  intros HN Hdue Hok.
  unfold save_if_due, bind, lift, py_mod, _get_checkpoint_path, py_floordiv, to_netcdf.
  apply Z.eqb_neq in HN. rewrite HN.
  assert (((global_idx i mod batch_size self =? 0)
           || (global_idx i =? total_granules))%bool = true) as ->.
  { apply orb_true_iff. rewrite !Z.eqb_eq. done. }
  by rewrite Hok.
Qed.

(** Whatever happens, a pass through [save_if_due] adds at most one write
    to the trace and leaves disk and catalog as they are. *)
Lemma save_if_due_effects i cb w :
  exists evs,
    trace (snd (save i cb w)) = (trace w ++ evs)%list
    ∧ extractions evs = [] ∧ opened evs = [] ∧ unlinks evs = []
    ∧ disk_ok (snd (save i cb w)) = disk_ok w
    ∧ catalog (snd (save i cb w)) = catalog w.
Proof.
  destruct (decide (batch_size self = 0)) as [H0|HN].
  { rewrite save_if_due_zero by done. exists []. by rewrite app_nil_r. }
  destruct (decide (global_idx i mod batch_size self = 0 ∨ global_idx i = total_granules))
    as [Hdue|Hnot].
  - destruct (disk_ok w (name (global_idx i / batch_size self))) eqn:Hok.
    + rewrite save_if_due_flush by done. by eexists [_].
    + rewrite save_if_due_refused by done. by eexists [_].
  - rewrite save_if_due_skip by tauto. exists []. by rewrite app_nil_r.
Qed.

Lemma save_if_due_leftover i cb w : leftover (snd (save i cb w)) = leftover w.
Proof.
  destruct (decide (batch_size self = 0)) as [H0|HN].
  { by rewrite save_if_due_zero. }
  destruct (decide (global_idx i mod batch_size self = 0 ∨ global_idx i = total_granules))
    as [Hdue|Hnot].
  - destruct (disk_ok w (name (global_idx i / batch_size self))) eqn:Hok.
    + by rewrite save_if_due_flush.
    + by rewrite save_if_due_refused.
  - by rewrite save_if_due_skip by tauto.
Qed.

Lemma extract_loop_leftover files : forall i cb w,
  leftover (snd (loop i files cb w)) = leftover w.
Proof.
  induction files as [|f files IH]; intros i cb w; [done|].
  cbn [extract_loop].
  destruct (_extract_granule_pixel f lat lon var_name) as [e|px].
  - by rewrite IH.
  - pose proof (save_if_due_leftover i (cb ++ [px]) (emit (EvExtract f) w)) as Hl.
    destruct (save i (cb ++ [px])%list (emit (EvExtract f) w)) as [[e|cb2] w2];
      cbn [snd] in Hl; by rewrite IH, Hl.
Qed.

(** The loop reads every file it is given, once and in order, whatever
    fails; it opens no stream and removes no file. *)
Lemma extract_loop_effects files i cb w :
  exists evs,
    trace (snd (loop i files cb w)) = (trace w ++ evs)%list
    ∧ extractions evs = files ∧ opened evs = [] ∧ unlinks evs = []
    ∧ disk_ok (snd (loop i files cb w)) = disk_ok w
    ∧ catalog (snd (loop i files cb w)) = catalog w.
Proof.
  revert i cb w. induction files as [|f files IH]; intros i cb w.
  { exists []. by rewrite app_nil_r. }
  cbn [extract_loop].
  destruct (_extract_granule_pixel f lat lon var_name) as [e|px].
  - destruct (IH (S i) cb (emit (EvExtract f) w)) as (evs & Ht & He & Ho & Hu & Hd & Hc).
    exists (EvExtract f :: evs). rewrite Ht, Hd, Hc. cbn [emit trace disk_ok catalog].
    rewrite <- app_assoc. unfold extractions, opened, unlinks in *. cbn.
    by rewrite He, Ho, Hu.
  - pose proof (save_if_due_effects i (cb ++ [px]) (emit (EvExtract f) w))
      as (evs1 & Ht1 & He1 & Ho1 & Hu1 & Hd1 & Hc1).
    destruct (save i (cb ++ [px])%list (emit (EvExtract f) w)) as [[e|cb2] w2];
      cbn [snd] in *.
    + destruct (IH (S i) (cb ++ [px])%list w2) as (evs & Ht & He & Ho & Hu & Hd & Hc).
      exists (EvExtract f :: evs1 ++ evs). rewrite Ht, Hd, Hc, Ht1, Hd1, Hc1.
      cbn [emit trace disk_ok catalog]. rewrite <- !app_assoc.
      unfold extractions, opened, unlinks in *. cbn.
      by rewrite !omap_app, He1, Ho1, Hu1, He, Ho, Hu.
    + destruct (IH (S i) cb2 w2) as (evs & Ht & He & Ho & Hu & Hd & Hc).
      exists (EvExtract f :: evs1 ++ evs). rewrite Ht, Hd, Hc, Ht1, Hd1, Hc1.
      cbn [emit trace disk_ok catalog]. rewrite <- !app_assoc.
      unfold extractions, opened, unlinks in *. cbn.
      by rewrite !omap_app, He1, Ho1, Hu1, He, Ho, Hu.
Qed.

Lemma emit_all_nil w : emit_all [] w = w.
Proof. destruct w. unfold emit_all. cbn. by rewrite app_nil_r. Qed.

Lemma emit_all_emit e evs w : emit_all evs (emit e w) = emit_all (e :: evs) w.
Proof. unfold emit_all, emit. cbn. by rewrite <- app_assoc. Qed.

Lemma emit_all_app evs1 evs2 w : emit_all evs2 (emit_all evs1 w) = emit_all (evs1 ++ evs2) w.
Proof. unfold emit_all. cbn. by rewrite <- app_assoc. Qed.

Lemma emit_emit_all e evs w : emit e (emit_all evs w) = emit_all (evs ++ [e]) w.
Proof. unfold emit_all, emit. cbn. by rewrite <- app_assoc. Qed.

Lemma extracted_app xs ys :
  extracted lat lon var_name (xs ++ ys)
  = (extracted lat lon var_name xs ++ extracted lat lon var_name ys)%list.
Proof. apply omap_app. Qed.

Lemma extracted_length xs :
  all_extract xs -> length (extracted lat lon var_name xs) = length xs.
Proof.
  induction 1 as [|x xs [r Hr] _ IH]; [done|].
  unfold extracted in *. cbn. rewrite Hr. cbn. by rewrite IH.
Qed.

Lemma extracted_cons x xs r :
  pixel_of lat lon var_name x = Some r ->
  extracted lat lon var_name (x :: xs) = r :: extracted lat lon var_name xs.
Proof. intros H. unfold extracted. cbn. by rewrite H. Qed.

Lemma extracted_cons_fail x xs :
  pixel_of lat lon var_name x = None ->
  extracted lat lon var_name (x :: xs) = extracted lat lon var_name xs.
Proof. intros H. unfold extracted. cbn. by rewrite H. Qed.

(** While no checkpoint is due, the records pile up in the batch. *)
Lemma loop_fill xs : forall i cb w rest,
  batch_size self <> 0 ->
  all_extract xs ->
  (forall j, (j < length xs)%nat -> ¬ due (i + j)) ->
  loop i (xs ++ rest) cb w
  = loop (i + length xs) rest (cb ++ extracted lat lon var_name xs)
      (emit_all (EvExtract <$> xs) w).
Proof.
  induction xs as [|x xs IH]; intros i cb w rest HN Hok Hnot.
  { cbn. by rewrite Nat.add_0_r, app_nil_r, emit_all_nil. }
  apply Forall_cons in Hok as [[r Hr] Hok].
  assert (_extract_granule_pixel x lat lon var_name = inr r) as Hx.
  { unfold pixel_of in Hr. destruct (_extract_granule_pixel x lat lon var_name); by simplify_eq. }
  cbn [app extract_loop]. rewrite Hx.
  assert (¬ due i) as Hi.
  { specialize (Hnot 0%nat). rewrite Nat.add_0_r in Hnot. apply Hnot. cbn. lia. }
  rewrite save_if_due_skip; [|done|unfold due in Hi; tauto..].
  rewrite IH; [|done|done|].
  - rewrite (extracted_cons x xs r Hr). cbn [length fmap list_fmap].
    replace (S i + length xs)%nat with (i + S (length xs))%nat by lia.
    by rewrite emit_all_emit, <- app_assoc.
  - intros j Hj. replace (S i + j)%nat with (i + S j)%nat by lia.
    apply Hnot. cbn. lia.
Qed.

(** A batch that fills without a failure and is due at its last granule is
    written whole, and the loop goes on with an empty batch. *)
Lemma loop_batch xs x : forall i w rest,
  batch_size self <> 0 ->
  all_extract (xs ++ [x]) ->
  (forall j, (j < length xs)%nat -> ¬ due (i + j)) ->
  due (i + length xs) ->
  (forall p, disk_ok w p = true) ->
  loop i ((xs ++ [x]) ++ rest) [] w
  = loop (i + length xs + 1) rest []
      (flushed (global_idx (i + length xs) / batch_size self) (xs ++ [x]) w).
Proof.
  intros i w rest HN Hok Hnot Hdue Hdisk.
  apply Forall_app in Hok as [Hxs Hx]. apply Forall_singleton in Hx as [r Hr].
  rewrite <- app_assoc. rewrite loop_fill by done.
  assert (_extract_granule_pixel x lat lon var_name = inr r) as Hx.
  { unfold pixel_of in Hr. destruct (_extract_granule_pixel x lat lon var_name); by simplify_eq. }
  cbn [app extract_loop]. rewrite Hx.
  rewrite save_if_due_flush; [|done|done|by cbn].
  replace (S (i + length xs)) with (i + length xs + 1)%nat by lia.
  f_equal. unfold flushed. rewrite extracted_app, (extracted_cons x [] r Hr).
  rewrite fmap_app. cbn [fmap list_fmap]. rewrite emit_emit_all. done.
Qed.

Lemma disk_ok_flushed k c w p : disk_ok (flushed k c w) p = disk_ok w p.
Proof. done. Qed.

Lemma dir_flushed k c w :
  dir (flushed k c w) = <[name k := mkNc (extracted lat lon var_name c) ∅]> (dir w).
Proof. done. Qed.

Lemma trace_flushed k c w :
  trace (flushed k c w)
  = (trace w ++ (EvExtract <$> c)
       ++ [EvWrite (name k) (mkNc (extracted lat lon var_name c) ∅)])%list.
Proof. unfold flushed, written, emit_all. cbn. by rewrite <- app_assoc. Qed.

Lemma elem_of_batch_names k m x :
  x ∈ batch_names k m ↔ exists j, (j < m)%nat ∧ x = name (k + Z.of_nat j + 1).
Proof.
  unfold batch_names. rewrite list_elem_of_fmap. split.
  - intros (j & -> & Hj). apply elem_of_seq in Hj. exists j. split; [lia|done].
  - intros (j & Hj & ->). exists j. split; [done|]. apply elem_of_seq. lia.
Qed.

Lemma NoDup_batch_names k m : NoDup (batch_names k m).
Proof.
  unfold batch_names. apply NoDup_fmap_2_strong; [|apply NoDup_seq].
  intros a b _ _ Heq. apply NamingFacts.checkpoint_name_inj in Heq. lia.
Qed.

Lemma length_batch_names k m : length (batch_names k m) = m.
Proof. unfold batch_names. by rewrite length_fmap, length_seq. Qed.

(** From here on the batch size is a positive [n]. *)
Variable n : nat.
Hypothesis n_pos : (0 < n)%nat.
Hypothesis batch_size_n : batch_size self = Z.of_nat n.

Local Abbreviation batches_world :=
  (batches_world station_code product_type lat lon var_name n).
Local Abbreviation run_world :=
  (run_world station_code product_type lat lon var_name n).

Lemma mod_inside (k : Z) (j : nat) :
  (0 < j < n)%nat -> (k * Z.of_nat n + Z.of_nat j) mod Z.of_nat n <> 0.
Proof.
  intros Hj. rewrite Z.add_comm, Z_mod_plus_full, Z.mod_small by lia. lia.
Qed.

(** A full batch: [n] granules from a position that is a multiple of [n]. *)
Lemma loop_full_batch (k : Z) (c : list Granule) : forall i w rest,
  length c = n ->
  processed_count + Z.of_nat i = k * Z.of_nat n ->
  (k + 1) * Z.of_nat n <= total_granules ->
  all_extract c ->
  (forall p, disk_ok w p = true) ->
  loop i (c ++ rest) [] w = loop (i + n) rest [] (flushed (k + 1) c w).
Proof.
  intros i w rest Hlen Hpos Hfit Hok Hdisk.
  destruct c as [|x0 c0] using rev_ind; [cbn in Hlen; lia|]. clear IHc0.
  rename c0 into xs, x0 into x. rewrite length_app in Hlen. cbn in Hlen.
  rewrite loop_batch; [|lia|done| |left|done].
  - replace (processed_count + Z.of_nat (i + length xs) + 1)
      with ((k + 1) * Z.of_nat n) by lia.
    rewrite batch_size_n, Z.div_mul by lia.
    by replace (i + length xs + 1)%nat with (i + n)%nat by lia.
  - intros j Hj [Hm|Ht].
    + rewrite batch_size_n in Hm.
      replace (processed_count + Z.of_nat (i + j) + 1)
        with (k * Z.of_nat n + Z.of_nat (S j)) in Hm by lia.
      revert Hm. apply mod_inside. lia.
    + nia.
  - rewrite batch_size_n.
    replace (processed_count + Z.of_nat (i + length xs) + 1)
      with ((k + 1) * Z.of_nat n) by lia.
    apply Z.mod_mul. lia.
Qed.

(** The last, short batch: fewer than [n] granules up to the last granule. *)
Lemma loop_short_batch (k : Z) (c : list Granule) : forall i w,
  (0 < length c < n)%nat ->
  processed_count + Z.of_nat i = k * Z.of_nat n ->
  total_granules = k * Z.of_nat n + Z.of_nat (length c) ->
  all_extract c ->
  (forall p, disk_ok w p = true) ->
  loop i c [] w = ([], flushed k c w).
Proof.
  intros i w Hlen Hpos Htot Hok Hdisk.
  destruct c as [|x0 c0] using rev_ind; [cbn in Hlen; lia|]. clear IHc0.
  rename c0 into xs, x0 into x. rewrite length_app in Hlen, Htot. cbn in Hlen, Htot.
  rewrite <- (app_nil_r (xs ++ [x])) at 1.
  rewrite loop_batch; [|lia|done| |right; lia|done].
  - cbn [extract_loop]. f_equal. f_equal.
    replace (processed_count + Z.of_nat (i + length xs) + 1)
      with (Z.of_nat (length xs + 1) + k * Z.of_nat n) by lia.
    rewrite batch_size_n, Z.div_add, Z.div_small by lia. lia.
  - intros j Hj [Hm|Ht]; [|lia].
    rewrite batch_size_n in Hm.
    replace (processed_count + Z.of_nat (i + j) + 1)
      with (k * Z.of_nat n + Z.of_nat (S j)) in Hm by lia.
    revert Hm. apply mod_inside. lia.
Qed.

Lemma disk_ok_batches_world m : forall k files w p,
  disk_ok (batches_world m k files w) p = disk_ok w p.
Proof.
  clear n_pos batch_size_n. induction m as [|m IH]; intros; cbn; [done|]. by rewrite IH. Qed.

Lemma loop_batches m : forall files i k w,
  processed_count + Z.of_nat i = k * Z.of_nat n ->
  (k + Z.of_nat m) * Z.of_nat n <= total_granules ->
  (m * n <= length files)%nat ->
  all_extract files ->
  (forall p, disk_ok w p = true) ->
  loop i files [] w
  = loop (i + m * n) (drop (m * n) files) [] (batches_world m k files w).
Proof.
  induction m as [|m IH]; intros files i k w Hpos Hfit Hlen Hok Hdisk.
  { cbn. by rewrite Nat.add_0_r. }
  rewrite <- (take_drop n files) at 1.
  rewrite (loop_full_batch k); [| |done|nia| |done].
  - rewrite (IH _ _ (k + 1)); [| |lia| | |].
    + cbn [batches_world]. rewrite drop_drop.
      by replace (i + n + m * n)%nat with (i + S m * n)%nat by lia.
    + lia.
    + rewrite length_drop. cbn in Hlen. lia.
    + by apply Forall_drop.
    + done.
  - rewrite length_take. cbn in Hlen. lia.
  - by apply Forall_take.
Qed.

Lemma lookup_batches_miss m : forall k files w x,
  (forall j, (j < m)%nat -> x <> name (k + Z.of_nat j + 1)) ->
  dir (batches_world m k files w) !! x = dir w !! x.
Proof.
  clear n_pos batch_size_n.
  induction m as [|m IH]; intros k files w x Hx; [done|].
  cbn [batches_world]. rewrite IH.
  - rewrite dir_flushed, lookup_insert_ne; [done|].
    specialize (Hx 0%nat ltac:(lia)). cbn in Hx. by rewrite Z.add_0_r in Hx.
  - intros j Hj. specialize (Hx (S j) ltac:(lia)).
    by replace (k + 1 + Z.of_nat j + 1) with (k + Z.of_nat (S j) + 1) by lia.
Qed.

Lemma lookup_batches_hit m : forall k files w j,
  (j < m)%nat ->
  dir (batches_world m k files w) !! name (k + Z.of_nat j + 1)
  = Some (mkNc (extracted lat lon var_name (take n (drop (j * n) files))) ∅).
Proof.
  clear n_pos batch_size_n.
  induction m as [|m IH]; intros k files w j Hj; [lia|].
  cbn [batches_world]. destruct j as [|j].
  - rewrite lookup_batches_miss.
    + cbn [Z.of_nat]. rewrite Z.add_0_r, dir_flushed. by rewrite lookup_insert_eq.
    + intros j Hjm Heq. apply NamingFacts.checkpoint_name_inj in Heq. lia.
  - replace (k + Z.of_nat (S j) + 1) with (k + 1 + Z.of_nat j + 1) by lia.
    rewrite IH by lia. rewrite drop_drop.
    by replace (n + j * n)%nat with (S j * n)%nat by lia.
Qed.

Lemma is_Some_batches_world m k files w x :
  is_Some (dir (batches_world m k files w) !! x)
  ↔ is_Some (dir w !! x) ∨ x ∈ batch_names k m.
Proof.
  clear n_pos batch_size_n.
  destruct (decide (x ∈ batch_names k m)) as [Hin|Hout].
  - pose proof Hin as Hin'. apply elem_of_batch_names in Hin' as (j & Hj & ->).
    rewrite lookup_batches_hit by done. split; [by right|by eexists].
  - rewrite lookup_batches_miss.
    + split; [by left|]. by intros [?|?].
    + intros j Hj ->. apply Hout, elem_of_batch_names. eauto.
Qed.

Lemma loop_all_extract (k : Z) (files : list Granule) (w : World) :
  processed_count = k * Z.of_nat n ->
  total_granules = processed_count + Z.of_nat (length files) ->
  all_extract files ->
  (forall p, disk_ok w p = true) ->
  loop 0 files [] w = ([], run_world k files w).
Proof.
  intros Hpos Htot Hok Hdisk. unfold run_world.
  pose proof (Nat.div_mod_eq (length files) n) as Hdm.
  pose proof (Nat.mod_upper_bound (length files) n ltac:(lia)) as Hr.
  set (m := (length files / n)%nat) in *. set (r := (length files mod n)%nat) in *.
  rewrite (loop_batches m files 0 k w); [|lia|nia|nia|done|done].
  destruct (Nat.eqb_spec r 0) as [Hr0|Hr0].
  - rewrite drop_ge by lia. done.
  - rewrite (loop_short_batch (k + Z.of_nat m)); [done| | | | |].
    + rewrite length_drop. lia.
    + lia.
    + rewrite length_drop. nia.
    + by apply Forall_drop.
    + intros p. by rewrite disk_ok_batches_world.
Qed.

End Loop.

(** ** The finalizer *)

Section Finalize.
Context {AL : ArrayLib}.
Implicit Types (w : World) (d : gmap string NcFile).

#[local] Instance time_le_total : Total time_le.
Proof. intros a b. unfold time_le. lia. Qed.

Lemma lookup_delete_all names : forall d y,
  delete_all names d !! y = if decide (y ∈ names) then None else d !! y.
Proof.
  induction names as [|x names IH]; intros d y; [done|].
  cbn [delete_all]. rewrite IH.
  destruct (decide (y ∈ names)) as [Hin|Hout].
  - rewrite decide_True; [done|by right].
  - destruct (decide (y = x)) as [->|Hne].
    + rewrite lookup_delete_eq. rewrite decide_True; [done|by left].
    + rewrite lookup_delete_ne by done.
      rewrite decide_False; [done|]. intros [?|?]%elem_of_cons; done.
Qed.

Lemma read_all_ok names : forall w,
  (forall x, x ∈ names -> is_Some (dir w !! x)) ->
  read_all names w = (inr (files_of (dir w) names), emit_all (EvRead <$> names) w)
  ∧ length (files_of (dir w) names) = length names.
Proof.
  induction names as [|x names IH]; intros w Hall.
  { cbn. unfold ret. by rewrite emit_all_nil. }
  destruct (Hall x ltac:(by left)) as [f Hf].
  destruct (IH (emit (EvRead x) w)) as [Hrun Hlen].
  { intros y Hy. apply Hall. by right. }
  change (dir (emit (EvRead x) w)) with (dir w) in Hrun, Hlen.
  assert (files_of (dir w) (x :: names) = f :: files_of (dir w) names) as ->.
  { unfold files_of. cbn. by rewrite Hf. }
  split; [|cbn; by rewrite Hlen].
  cbn [read_all]. unfold bind at 1. unfold open_dataset at 1. rewrite Hf.
  unfold bind at 1. rewrite Hrun. unfold ret.
  by rewrite emit_all_emit.
Qed.

Lemma unlink_all_ok names : forall w,
  NoDup names ->
  (forall x, x ∈ names -> is_Some (dir w !! x)) ->
  unlink_all names w
  = (inr tt, mkWorld (delete_all names (dir w)) (disk_ok w) (leftover w) (catalog w)
               (trace w ++ (EvUnlink <$> names))).
Proof.
  induction names as [|x names IH]; intros w Hnd Hall.
  { cbn. unfold ret. destruct w. cbn. by rewrite app_nil_r. }
  apply NoDup_cons in Hnd as [Hx Hnd].
  destruct (Hall x ltac:(by left)) as [f Hf].
  cbn [unlink_all]. unfold bind, unlink at 1. rewrite Hf.
  rewrite IH; [|done|].
  - cbn. by rewrite <- app_assoc.
  - intros y Hy. cbn. rewrite lookup_delete_ne by (intros ->; done).
    apply Hall. by right.
Qed.

Lemma finalize_run (self : PaceExtractor) (station_code product_type final_path : string) w :
  Naming.plain station_code = true -> Naming.plain product_type = true ->
  let cps := list_checkpoints station_code product_type (dir w) in
  let content := final_content station_code product_type (dir w) in
  let w1 := emit_all (EvGlob station_code product_type :: (EvRead <$> cps)
                        ++ [EvWrite final_path content]) w in
  _finalize_station self station_code product_type final_path w
  = match cps with
    | [] => (inr None, emit (EvGlob station_code product_type) w)
    | _ :: _ =>
        if disk_ok w final_path then
          (inr (Some final_path),
           mkWorld (delete_all cps (<[final_path := content]> (dir w)))
                   (disk_ok w) (leftover w) (catalog w) (trace w1 ++ (EvUnlink <$> cps)))
        else (inl (OSError final_path), set_dir (failed_write final_path content w) w1)
    end.
Proof.
  intros HS HP. cbv zeta. unfold final_content.
  unfold _finalize_station. unfold bind at 1. unfold glob_checkpoints.
  rewrite HS, HP. cbn [andb].
  assert (forall x, x ∈ list_checkpoints station_code product_type (dir w) ->
            is_Some (dir w !! x)) as Hall.
  { intros x Hx. by apply elem_of_list_checkpoints in Hx as [? _]. }
  pose proof (NoDup_list_checkpoints station_code product_type (dir w)) as Hnd.
  change (dir (emit (EvGlob station_code product_type) w)) with (dir w).
  destruct (list_checkpoints station_code product_type (dir w)) as [|c cps'] eqn:Hcps;
    [done|].
  cbn match. remember (c :: cps') as cps eqn:Hl. clear Hl Hcps c cps'.
  unfold bind at 1. unfold lift at 1.
  change (lookup_names _ ["station_code"; "len"; "checkpoints"]) with (@inr Exception unit tt).
  cbn match.
  destruct (read_all_ok cps (emit (EvGlob station_code product_type) w)) as [Hread _];
    [done|].
  unfold bind at 1. rewrite Hread.
  change (dir (emit (EvGlob station_code product_type) w)) with (dir w).
  rewrite emit_all_emit.
  unfold bind at 1. unfold to_netcdf at 1. cbn [disk_ok emit_all].
  destruct (disk_ok w final_path) eqn:Hok.
  - unfold bind at 1. rewrite unlink_all_ok; [|done|].
    + unfold bind, lift, ret.
      change (lookup_names _ ["station_code"; "product_type"; "final_path"])
        with (@inr Exception unit tt).
      unfold emit_all, emit, set_dir. cbn.
      by repeat (rewrite <- app_assoc; cbn [app]).
    + intros x Hx. cbn. destruct (decide (final_path = x)) as [->|Hne].
      * by rewrite lookup_insert_eq.
      * rewrite lookup_insert_ne by done. by apply Hall.
  - unfold emit_all, emit, set_dir, failed_write. cbn.
    by repeat (rewrite <- app_assoc; cbn [app]).
Qed.

(** The final content looks at the checkpoints of the key only. *)
Lemma final_content_ext station_code product_type (d d' : gmap string NcFile) :
  (forall x, Naming.checkpoint_match station_code product_type x = true -> d !! x = d' !! x) ->
  final_content station_code product_type d = final_content station_code product_type d'.
Proof.
  intros H. unfold final_content.
  assert (list_checkpoints station_code product_type d
          = list_checkpoints station_code product_type d') as Hl.
  { apply list_checkpoints_ext. intros x Hx. by rewrite H. }
  rewrite <- Hl. do 3 f_equal. unfold files_of.
  assert (forall l : list string,
            (forall x, x ∈ l -> x ∈ list_checkpoints station_code product_type d) ->
            omap (fun x => d !! x) l = omap (fun x => d' !! x) l) as Hall; [|by apply Hall].
  induction l as [|x l IH]; intros Hin; [done|]. cbn.
  rewrite <- H.
  - rewrite IH; [done|]. intros y Hy. apply Hin. by right.
  - by apply (elem_of_list_checkpoints station_code product_type d), Hin; left.
Qed.

Lemma final_content_records station_code product_type d :
  Sorted time_le (nc_records (final_content station_code product_type d))
  ∧ nc_records (final_content station_code product_type d)
    ≡ₚ concat (nc_records <$> files_of d (list_checkpoints station_code product_type d)).
Proof.
  unfold final_content, set_attr, sortby_time, concat_files. cbn. split.
  - apply Sorted_merge_sort. apply _.
  - apply merge_sort_Permutation.
Qed.

(** The two outcomes of the finalizer on a key that has checkpoints. *)
Lemma finalize_outcome (self : PaceExtractor) (station_code product_type : string)
    (w : World) :
  Naming.plain station_code = true -> Naming.plain product_type = true ->
  list_checkpoints station_code product_type (dir w) <> [] ->
  let final_path := Naming.final_name station_code product_type in
  let cps := list_checkpoints station_code product_type (dir w) in
  let content := final_content station_code product_type (dir w) in
  let run := _finalize_station self station_code product_type final_path w in
  (disk_ok w final_path = false ->
     fst run = inl (OSError final_path)
     ∧ dir (snd run) = failed_write final_path content w
     ∧ list_checkpoints station_code product_type (dir (snd run)) = cps
     ∧ unlinks (trace (snd run)) = unlinks (trace w))
  ∧ (disk_ok w final_path = true ->
     fst run = inr (Some final_path)
     ∧ list_checkpoints station_code product_type (dir (snd run)) = []
     ∧ dir (snd run) !! final_path = Some content
     ∧ Sorted time_le (nc_records content)
     ∧ nc_records content ≡ₚ concat (nc_records <$> files_of (dir w) cps)
     ∧ (forall x, x ∉ cps -> x <> final_path -> dir (snd run) !! x = dir w !! x)
     ∧ trace (snd run)
       = (trace w ++ EvGlob station_code product_type :: (EvRead <$> cps)
            ++ EvWrite final_path content :: (EvUnlink <$> cps))%list).
Proof.
  intros HS HP Hne final_path cps content run.
  pose proof (finalize_run self station_code product_type final_path w HS HP) as Hrun.
  cbv zeta in Hrun. fold cps content run in Hrun.
  assert (list_checkpoints station_code product_type (failed_write final_path content w)
          = list_checkpoints station_code product_type (dir w)) as Hext.
  { apply list_checkpoints_ext. intros x Hx.
    rewrite lookup_failed_write; [done|]. intros ->.
    unfold final_path in Hx. by rewrite NamingFacts.final_name_no_match in Hx. }
  destruct cps as [|c cps'] eqn:Hcps; [done|]. rewrite <- Hcps in *.
  split; intros Hok; rewrite Hok in Hrun; rewrite Hrun;
    cbn [fst snd dir trace emit_all set_dir].
  - split; [done|]. split; [done|]. split.
    + exact Hext.
    + unfold unlinks. rewrite omap_app. cbn. rewrite omap_app. cbn.
      assert (omap (λ e : Event, match e with EvUnlink n => Some n | _ => None end)
                (EvRead <$> cps) = []) as ->.
      { clear. induction cps as [|x l IH]; [done|]. by cbn. }
      by rewrite app_nil_r.
  - assert (final_path ∉ cps) as Hfin.
    { intros Hin. apply elem_of_list_checkpoints in Hin as [_ Hm].
      unfold final_path in Hm. by rewrite NamingFacts.final_name_no_match in Hm. }
    destruct (final_content_records station_code product_type (dir w)) as [Hsorted Hperm].
    repeat split; try done.
    + apply list_checkpoints_nil. intros x Hx.
      rewrite lookup_delete_all in Hx.
      destruct (decide (x ∈ cps)) as [Hin|Hout]; [by destruct Hx|].
      destruct (decide (final_path = x)) as [<-|Hne'].
      { apply NamingFacts.final_name_no_match. }
      rewrite lookup_insert_ne in Hx by done.
      destruct (Naming.checkpoint_match station_code product_type x) eqn:Hm; [|done].
      destruct Hout. by apply elem_of_list_checkpoints.
    + rewrite lookup_delete_all, decide_False by done. by rewrite lookup_insert_eq.
    + intros x Hx Hxf. rewrite lookup_delete_all, decide_False by done.
      by rewrite lookup_insert_ne.
    + by repeat (rewrite <- app_assoc; cbn [app]).
Qed.


End Finalize.

(** ** Runs of extract_and_save *)

Section Run.
Context {AL : ArrayLib}.
Variables (self : PaceExtractor) (station_code product_type : string).
Variables (granules : list Granule) (lat lon : num).

Local Abbreviation final_path := (Naming.final_name station_code product_type).
Local Abbreviation finalize := (_finalize_station self station_code product_type final_path).
Local Abbreviation run := (extract_and_save self station_code granules lat lon product_type).
Local Abbreviation resume := (resume_point self station_code product_type).
Local Abbreviation total := (Z.of_nat (length granules)).

(** The course of a run that finds no final artifact. *)
Lemma extract_and_save_run (w : World) :
  dir w !! final_path = None ->
  Naming.plain station_code = true -> Naming.plain product_type = true ->
  run w
  = if ((resume w >=? total) && (total >? 0))%bool
    then finalize (checked station_code product_type w)
    else finalize (after_extraction self station_code granules lat lon product_type w).
Proof.
  intros Hfin HS HP. unfold extract_and_save.
  unfold bind at 1. unfold path_exists at 1. rewrite Hfin.
  rewrite bool_decide_eq_false_2 by by intros [? ?].
  unfold bind at 1. unfold glob_checkpoints at 1. cbn [dir emit].
  rewrite HS, HP. cbn [andb].
  fold (checked station_code product_type w). fold (resume w).
  destruct ((resume w >=? total) && (total >? 0))%bool eqn:Hcond.
  - unfold bind at 1, lift at 1.
    by change (lookup_names loop_locals ["station_code"]) with (@inr Exception unit tt).
  - unfold bind at 1, lift at 1.
    change (lookup_names loop_locals _) with (@inr Exception unit tt).
    cbn match. unfold bind at 1. unfold extract_remaining, bind, earthaccess_open.
    reflexivity.
Qed.

Lemma new_events_app (w w' : World) evs :
  trace w' = (trace w ++ evs)%list -> new_events w w' = evs.
Proof. intros H. unfold new_events. by rewrite H, drop_app_length. Qed.

(** The finalizer opens no stream and extracts nothing. *)
Lemma finalize_effects (w : World) :
  Naming.plain station_code = true -> Naming.plain product_type = true ->
  exists evs,
    trace (snd (finalize w)) = (trace w ++ evs)%list
    ∧ opened evs = [] ∧ extractions evs = [].
Proof.
  intros HS HP. rewrite (finalize_run self station_code product_type _ w HS HP).
  cbv zeta.
  assert (forall (f : string -> Event) (l : list string),
            (forall x, match f x with EvOpen _ | EvExtract _ => False | _ => True end) ->
            opened (f <$> l) = [] ∧ extractions (f <$> l) = []) as Hquiet.
  { intros f l Hf. induction l as [|x l [IH1 IH2]]; [done|].
    unfold opened, extractions in *. cbn. specialize (Hf x).
    destruct (f x); try done; by rewrite ?IH1, ?IH2. }
  destruct (Hquiet EvRead (list_checkpoints station_code product_type (dir w)))
    as [Hr1 Hr2]; [done|].
  destruct (Hquiet EvUnlink (list_checkpoints station_code product_type (dir w)))
    as [Hu1 Hu2]; [done|].
  destruct (list_checkpoints station_code product_type (dir w)) as [|c cps] eqn:Hcps.
  { by exists [EvGlob station_code product_type]. }
  rewrite <- Hcps in *. clear Hcps.
  destruct (disk_ok w final_path); cbn [snd trace emit_all].
  - eexists. split; [by rewrite <- app_assoc|].
    unfold opened, extractions in *. cbn. rewrite !omap_app. cbn.
    by rewrite Hr1, Hr2, Hu1, Hu2.
  - eexists. split; [done|].
    unfold opened, extractions in *. cbn. rewrite !omap_app. cbn.
    by rewrite Hr1, Hr2.
Qed.

(** No failure of an extraction aborts a run: on a disk that takes every
    write, the call returns (a path or [None]) whatever the granules do. *)
Lemma extract_and_save_returns (w : World) :
  Naming.plain station_code = true -> Naming.plain product_type = true ->
  (forall p, disk_ok w p = true) ->
  exists r, fst (run w) = inr r.
Proof.
  intros HS HP Hdisk.
  assert (forall w', disk_ok w' = disk_ok w -> exists r, fst (finalize w') = inr r) as Hfin.
  { intros w' Hw'. rewrite (finalize_run self station_code product_type _ w' HS HP).
    cbv zeta. rewrite Hw', Hdisk.
    destruct (list_checkpoints station_code product_type (dir w')); by eexists. }
  destruct (dir w !! final_path) as [f|] eqn:Hfinal.
  - rewrite extract_and_save_short_circuit by by eexists. by eexists.
  - rewrite extract_and_save_run by done.
    destruct ((resume w >=? total) && (total >? 0))%bool; apply Hfin; [done|].
    unfold after_extraction.
    match goal with |- disk_ok (snd (extract_loop ?a ?b ?c ?d ?e ?f ?g ?h ?i ?j ?k ?l)) = _ =>
      destruct (extract_loop_effects a b c d e f g h j i k l) as (_ & _ & _ & _ & _ & Hd & _)
    end.
    by rewrite Hd.
Qed.


End Run.

(** ** Runs in which every granule extracts *)

Section AllExtract.
Context {AL : ArrayLib}.
Variables (self : PaceExtractor) (station_code product_type : string).
Variables (granules : list Granule) (lat lon : num).
Variable n : nat.
Hypothesis n_pos : (0 < n)%nat.
Hypothesis batch_size_n : batch_size self = Z.of_nat n.

Local Abbreviation name := (Naming.checkpoint_name station_code product_type).
Local Abbreviation final_path := (Naming.final_name station_code product_type).
Local Abbreviation var_name := (var_of product_type).
Local Abbreviation recs := (extracted lat lon var_name).
Local Abbreviation listing := (list_checkpoints station_code product_type).
Local Abbreviation batches := (batches_world station_code product_type lat lon var_name n).
Local Abbreviation names := (batch_names station_code product_type).

(** The world at the end of the loop, for a run resumed after [c] full
    checkpoints on a disk that takes every write. *)
Lemma after_extraction_all_extract (w : World) :
  let c := length (listing (dir w)) in
  let files := drop (c * n) granules in
  (c * n <= length granules)%nat ->
  all_extract lat lon var_name files ->
  (forall p, disk_ok w p = true) ->
  after_extraction self station_code granules lat lon product_type w
  = run_world station_code product_type lat lon var_name n (Z.of_nat c) files
      (emit (EvOpen files) (checked station_code product_type w)).
Proof.
  intros c files Hlen Hok Hdisk. unfold after_extraction, resume_point.
  fold c. rewrite batch_size_n.
  assert (py_slice_from granules (Z.of_nat c * Z.of_nat n) = files) as ->.
  { unfold py_slice_from. destruct (Z.ltb_spec (Z.of_nat c * Z.of_nat n) 0); [lia|].
    unfold files. f_equal. lia. }
  rewrite (loop_all_extract self station_code product_type lat lon var_name
             _ _ n n_pos batch_size_n (Z.of_nat c) files); [done|done| |done|done].
  unfold files. rewrite length_drop. lia.
Qed.

Lemma concat_perm {A} (l l' : list (list A)) : l ≡ₚ l' -> concat l ≡ₚ concat l'.
Proof.
  induction 1 as [|x l l' _ IH|x y l|l l' l'' _ IH1 _ IH2]; cbn.
  - done.
  - by rewrite IH.
  - rewrite !app_assoc. f_equiv. apply Permutation_app_comm.
  - by etrans.
Qed.

Lemma files_of_batches (m : nat) (k : Z) (files : list Granule) (w : World) :
  files_of (dir (batches m k files w)) (names k m)
  = (fun j => mkNc (recs (take n (drop (j * n) files))) ∅) <$> seq 0 m.
Proof.
  unfold files_of, batch_names.
  assert (forall l : list nat, (forall j, j ∈ l -> (j < m)%nat) ->
            omap (fun x => dir (batches m k files w) !! x)
                 ((fun j => name (k + Z.of_nat j + 1)) <$> l)
            = (fun j => mkNc (recs (take n (drop (j * n) files))) ∅) <$> l) as H.
  { induction l as [|j l IH]; intros Hl; [done|]. cbn.
    rewrite lookup_batches_hit by (apply Hl; by left). cbn.
    rewrite IH; [done|]. intros j' Hj'. apply Hl. by right. }
  apply H. intros j Hj. apply elem_of_seq in Hj. lia.
Qed.

Lemma concat_batches (m : nat) (files : list Granule) :
  concat ((fun j => recs (take n (drop (j * n) files))) <$> seq 0 m)
  = recs (take (m * n) files).
Proof.
  induction m as [|m IH]; [done|].
  rewrite seq_S, fmap_app, concat_app, IH. cbn. rewrite app_nil_r.
  rewrite <- extracted_app, take_take_drop. f_equal. f_equal. lia.
Qed.

(** The checkpoints of the key after [m] full batches written into a
    directory that held none. *)
Lemma listing_batches (m : nat) (k : Z) (files : list Granule) (w : World) :
  listing (dir w) = [] ->
  listing (dir (batches m k files w)) ≡ₚ names k m.
Proof.
  clear n_pos batch_size_n.
  intros Hclean. apply list_checkpoints_perm; [apply NoDup_batch_names|].
  intros x. rewrite is_Some_batches_world. split.
  - intros Hx. split; [by right|].
    apply elem_of_batch_names in Hx as (j & _ & ->).
    apply NamingFacts.checkpoint_name_match.
  - intros [[Hx|Hx] Hm]; [|done].
    pose proof (proj1 (list_checkpoints_nil _ _ _) Hclean x Hx). congruence.
Qed.

(** C7: from a clean state, with [batch_size = n >= 1] and [m * n] granules
    ([m >= 1]) that all extract, on a disk that takes every write, the loop
    leaves exactly [m] checkpoint files of [n] records each; the run then
    returns the final path, and the final artifact holds the [m * n] records
    extracted, sorted by ascending time, no checkpoint being left. *)
Theorem extract_and_save_full_batches (m : nat) (w : World) :
  (1 <= m)%nat ->
  length granules = (m * n)%nat ->
  dir w !! final_path = None ->
  listing (dir w) = [] ->
  Naming.plain station_code = true -> Naming.plain product_type = true ->
  all_extract lat lon var_name granules ->
  (forall p, disk_ok w p = true) ->
  let w1 := after_extraction self station_code granules lat lon product_type w in
  let result := extract_and_save self station_code granules lat lon product_type w in
  length (listing (dir w1)) = m
  ∧ (forall x, x ∈ listing (dir w1) ->
       exists f, dir w1 !! x = Some f ∧ length (nc_records f) = n)
  ∧ result = _finalize_station self station_code product_type final_path w1
  ∧ fst result = inr (Some final_path)
  ∧ listing (dir (snd result)) = []
  ∧ exists content,
      dir (snd result) !! final_path = Some content
      ∧ length (nc_records content) = (m * n)%nat
      ∧ Sorted time_le (nc_records content)
      ∧ nc_records content ≡ₚ recs granules.
Proof.
  intros Hm Hlen Hfin Hclean HS HP Hok Hdisk w1 result.
  set (w0 := emit (EvOpen granules) (checked station_code product_type w)).
  assert (w1 = batches m 0 granules w0) as Hw1.
  { pose proof (after_extraction_all_extract w) as H.
    rewrite Hclean in H. cbn [length Nat.mul drop] in H.
    unfold w1. rewrite H; [|lia|done|done].
    unfold run_world. change (drop 0 granules) with granules.
    rewrite Hlen, Nat.div_mul, Nat.Div0.mod_mul by lia. done. }
  assert (listing (dir w1) ≡ₚ names 0 m) as Hperm.
  { rewrite Hw1. by apply listing_batches. }
  assert (result = _finalize_station self station_code product_type final_path w1) as Hres.
  { unfold result. rewrite extract_and_save_run by done.
    unfold resume_point. rewrite Hclean, Hlen. cbn [length].
    destruct (Z.geb_spec (Z.of_nat 0 * batch_size self) (Z.of_nat (m * n))); [nia|done]. }
  assert (listing (dir w1) <> []) as Hne.
  { intros H. rewrite H in Hperm. apply Permutation_length in Hperm.
    rewrite length_batch_names in Hperm. cbn in Hperm. lia. }
  assert (disk_ok w1 final_path = true) as Hdisk1.
  { rewrite Hw1, disk_ok_batches_world. apply Hdisk. }
  destruct (finalize_outcome self station_code product_type w1 HS HP Hne)
    as [_ Hgood].
  destruct (Hgood Hdisk1) as (Hfst & Hnil & Hcontent & Hsorted & Hrecs & _).
  assert (nc_records (final_content station_code product_type (dir w1)) ≡ₚ recs granules)
    as Hall.
  { etrans; [apply Hrecs|].
    etrans; [apply concat_perm, fmap_Permutation, omap_Permutation, Hperm|].
    fold (files_of (dir w1) (names 0 m)).
    rewrite Hw1, files_of_batches.
    rewrite <- list_fmap_compose.
    change (nc_records ∘ _) with (fun j => recs (take n (drop (j * n) granules))).
    rewrite concat_batches, take_ge by lia. done. }
  split; [|split; [|split; [|split; [|split]]]].
  - rewrite Hperm. apply length_batch_names.
  - intros x Hx. rewrite Hperm in Hx.
    apply elem_of_batch_names in Hx as (j & Hj & ->).
    rewrite Hw1, lookup_batches_hit by done. eexists. split; [done|]. cbn.
    rewrite extracted_length.
    + rewrite length_take, length_drop. nia.
    + by apply Forall_take, Forall_drop.
  - done.
  - by rewrite Hres.
  - by rewrite Hres.
  - rewrite Hres. eexists. split; [done|]. split; [|done].
    rewrite Hall, extracted_length by done. done.
Qed.

(** The index of a full batch, whatever the batch size: in a run resumed
    after [c] checkpoints in which every remaining granule extracts and
    every write goes through, a full batch that no short batch follows on
    its index is found under an index [b >= 1] counted from one: index [b]
    holds exactly the records of the granules at positions
    [(b-1) * batch_size, b * batch_size). *)
Theorem full_batch_checkpoint_contents (b : nat) (w : World) :
  let c := length (listing (dir w)) in
  (c < b)%nat ->
  (b * n <= length granules)%nat ->
  (length granules mod n = 0 ∨ b < length granules / n)%nat ->
  all_extract lat lon var_name (drop (c * n) granules) ->
  (forall p, disk_ok w p = true) ->
  dir w !! final_path = None ->
  Naming.plain station_code = true -> Naming.plain product_type = true ->
  let w1 := after_extraction self station_code granules lat lon product_type w in
  extract_and_save self station_code granules lat lon product_type w
  = _finalize_station self station_code product_type final_path w1
  ∧ dir w1 !! name (Z.of_nat b)
    = Some (mkNc (recs (take n (drop ((b - 1) * n) granules))) ∅).
Proof.
  intros c Hcb Hfit Hfull Hok Hdisk Hfin HS HP w1.
  split.
  { rewrite extract_and_save_run by done. unfold resume_point. fold c.
    rewrite batch_size_n.
    destruct (Z.geb_spec (Z.of_nat c * Z.of_nat n) (Z.of_nat (length granules)));
      [nia|done]. }
  pose proof (Nat.div_mod_eq (length granules) n) as Hdm.
  pose proof (Nat.mod_upper_bound (length granules) n ltac:(lia)) as Hr.
  set (q := (length granules / n)%nat) in *.
  set (r := (length granules mod n)%nat) in *.
  assert (b <= q)%nat as Hbq by nia.
  set (files := drop (c * n) granules).
  assert (length files = (n * (q - c) + r)%nat) as Hlen.
  { unfold files. rewrite length_drop. nia. }
  assert (length files / n = q - c)%nat as Hdiv.
  { symmetry. apply (Nat.div_unique _ _ _ r); [lia|done]. }
  assert (length files mod n = r)%nat as Hmod.
  { symmetry. apply (Nat.mod_unique _ _ (q - c)); [lia|done]. }
  unfold w1. rewrite after_extraction_all_extract; [|fold c; nia|done|done].
  fold c files. unfold run_world. rewrite Hdiv, Hmod.
  assert (name (Z.of_nat b) = name (Z.of_nat c + Z.of_nat (b - c - 1) + 1)) as Hname
    by (f_equal; lia).
  assert (recs (take n (drop ((b - c - 1) * n) files))
          = recs (take n (drop ((b - 1) * n) granules))) as Hrecs.
  { unfold files. rewrite drop_drop. do 3 f_equal. nia. }
  destruct (Nat.eqb_spec r 0) as [Hr0|Hr0].
  - rewrite Hname, lookup_batches_hit by lia. by rewrite Hrecs.
  - rewrite dir_flushed, lookup_insert_ne.
    + rewrite Hname, lookup_batches_hit by lia. by rewrite Hrecs.
    + intros Heq. apply NamingFacts.checkpoint_name_inj in Heq. lia.
Qed.

(** With one granule more than a batch ([n >= 2]), the short last batch is
    written under the index of the full one: a clean run that extracts
    [n + 1] granules leaves one checkpoint file, holding the last record. *)
Lemma short_batch_takes_the_index_of_the_full_one (w : World) :
  (2 <= n)%nat ->
  length granules = S n ->
  listing (dir w) = [] ->
  all_extract lat lon var_name granules ->
  (forall p, disk_ok w p = true) ->
  let w1 := after_extraction self station_code granules lat lon product_type w in
  listing (dir w1) = [name 1]
  ∧ dir w1 !! name 1 = Some (mkNc (recs (drop n granules)) ∅)
  ∧ length (recs (drop n granules)) = 1%nat.
Proof.
  intros Hn Hlen Hclean Hok Hdisk w1.
  assert (w1 = flushed station_code product_type lat lon var_name 1 (drop n granules)
                 (batches 1 0 granules
                    (emit (EvOpen granules) (checked station_code product_type w)))) as Hw1.
  { pose proof (after_extraction_all_extract w) as H.
    rewrite Hclean in H. cbn [length Nat.mul drop] in H.
    unfold w1. rewrite H; [|lia|done|done].
    unfold run_world. change (drop 0 granules) with granules. rewrite Hlen.
    assert (S n / n = 1)%nat as -> by (symmetry; apply (Nat.div_unique _ _ _ 1); lia).
    assert (S n mod n = 1)%nat as -> by (symmetry; apply (Nat.mod_unique _ _ 1); lia).
    cbn [Nat.eqb]. by rewrite Nat.mul_1_l. }
  assert (dir w1 !! name 1 = Some (mkNc (recs (drop n granules)) ∅)) as Hlook.
  { by rewrite Hw1, dir_flushed, lookup_insert_eq. }
  split; [|split; [done|]].
  - apply Permutation_singleton_r, list_checkpoints_perm; [apply NoDup_singleton|].
    intros x. rewrite list_elem_of_singleton. split.
    + intros ->. rewrite Hlook. split; [by eexists|]. apply NamingFacts.checkpoint_name_match.
    + intros [Hx Hm]. rewrite Hw1, dir_flushed in Hx.
      destruct (decide (x = name 1)) as [->|Hne]; [done|].
      rewrite lookup_insert_ne in Hx by done.
      apply is_Some_batches_world in Hx as [Hx|Hx].
      * pose proof (proj1 (list_checkpoints_nil _ _ _) Hclean x Hx). congruence.
      * apply elem_of_batch_names in Hx as (j & Hj & ->).
        destruct Hne. f_equal. lia.
  - rewrite extracted_length by by apply Forall_drop.
    rewrite length_drop. lia.
Qed.

End AllExtract.

(** ** The claims on sample runs *)

Section Cases.
Import Sample.
#[local] Existing Instance lib.

Local Abbreviation g := (granule "Rrs").
Local Abbreviation name := (Naming.checkpoint_name "ST" "Rrs").

Example sample_extraction : _extract_granule_pixel (g "7") lat lon "Rrs" = inr (pixel 7).
Proof. vm_compute. reflexivity. Qed.

(** C1 on the code: with [batch_size = 2] and three granules that all
    extract, from a clean state, the loop writes twice to the same file
    [b0001]: the batch of two, then the batch of one over it.  One
    checkpoint file is left, with one record, and the final artifact holds
    that record only. *)
Theorem partial_batch_overwrites_full_batch :
  let gs := [g "1"; g "2"; g "3"] in
  let w1 := after_extraction (extractor 2) "ST" gs lat lon "Rrs" empty_world in
  let result := extract_and_save (extractor 2) "ST" gs lat lon "Rrs" empty_world in
  extracted lat lon "Rrs" gs = [pixel 1; pixel 2; pixel 3]
  ∧ writes (trace w1) = [(name 1, mkNc [pixel 1; pixel 2] ∅); (name 1, mkNc [pixel 3] ∅)]
  ∧ list_checkpoints "ST" "Rrs" (dir w1) = [name 1]
  ∧ dir w1 !! name 1 = Some (mkNc [pixel 3] ∅)
  ∧ fst result = inr (Some "ST_Rrs_final.nc")
  ∧ (nc_records <$> dir (snd result) !! "ST_Rrs_final.nc") = Some [pixel 3].
Proof. cbv zeta. repeat apply conj; vm_compute; reflexivity. Qed.

(** No numbering from zero: with [batch_size = 2] and two granules the one
    checkpoint has index 1 and holds the records of the granules at
    positions 0 and 1; no part of the positions [2, 4) yields them. *)
Lemma checkpoint_index_counts_from_one :
  ¬ (forall (AL0 : ArrayLib) (self : PaceExtractor) (station_code product_type : string)
       (granules : list (@Granule AL0)) (lat0 lon0 : @num AL0) (w : @World AL0)
       (b : nat) (f : @NcFile AL0),
       dir (after_extraction self station_code granules lat0 lon0 product_type w)
         !! Naming.checkpoint_name station_code product_type (Z.of_nat b) = Some f ->
       exists k, nc_records f
                 = extracted lat0 lon0 (var_of product_type)
                     (take k (drop (b * Z.to_nat (batch_size self)) granules))).
Proof.
  intros H.
  destruct (H lib (extractor 2) "ST" "Rrs" [g "1"; g "2"] lat lon empty_world 1%nat
              (mkNc [pixel 1; pixel 2] ∅)) as [k Hk].
  - vm_compute. reflexivity.
  - assert (drop (1 * Z.to_nat (batch_size (extractor 2))) [g "1"; g "2"] = []) as Hd
      by reflexivity.
    rewrite Hd, take_nil in Hk. discriminate Hk.
Qed.

(** C2 on the code: with [batch_size = 2] and four granules that all
    extract, from a clean state, the loop writes the batch of the positions
    0 and 1 to [b0001] and the batch of the positions 2 and 3 to [b0002];
    there is no [b0000].  The checkpoint of index [b] holds the granules at
    positions [(b-1)*2, b*2), not [b*2, (b+1)*2): index 1 holds what the
    positions [0, 2) yield and not what [2, 4) yield, and index 2 holds two
    records although no granule has a position from 4 on. *)
Theorem full_batches_are_numbered_from_one :
  let gs := [g "1"; g "2"; g "3"; g "4"] in
  let w1 := after_extraction (extractor 2) "ST" gs lat lon "Rrs" empty_world in
  extracted lat lon "Rrs" gs = [pixel 1; pixel 2; pixel 3; pixel 4]
  ∧ writes (trace w1)
    = [(name 1, mkNc [pixel 1; pixel 2] ∅); (name 2, mkNc [pixel 3; pixel 4] ∅)]
  ∧ list_checkpoints "ST" "Rrs" (dir w1) = [name 1; name 2]
  ∧ dir w1 !! name 0 = None
  ∧ dir w1 !! name 1 = Some (mkNc (extracted lat lon "Rrs" (take 2 (drop (0 * 2) gs))) ∅)
  ∧ dir w1 !! name 2 = Some (mkNc (extracted lat lon "Rrs" (take 2 (drop (1 * 2) gs))) ∅)
  ∧ extracted lat lon "Rrs" (take 2 (drop (1 * 2) gs)) = [pixel 3; pixel 4]
  ∧ extracted lat lon "Rrs" (take 2 (drop (2 * 2) gs)) = [].
Proof. cbv zeta. repeat apply conj; vm_compute; reflexivity. Qed.

(** C4 on the code: with [batch_size = 2] and two granules of which the
    second fails, the record of the first is in the batch when the loop
    ends but no checkpoint was due at it and the failure skips the check at
    the last granule: nothing is written, the finalizer finds no checkpoint
    and the run returns [None].  The run does not abort. *)
Theorem failure_at_last_granule_loses_the_batch :
  let gs := [g "1"; broken] in
  let result := extract_and_save (extractor 2) "ST" gs lat lon "Rrs" empty_world in
  extracted lat lon "Rrs" gs = [pixel 1]
  ∧ fst result = inr None
  ∧ dir (snd result) = ∅
  ∧ writes (trace (snd result)) = []
  ∧ extractions (trace (snd result)) = gs.
Proof. cbv zeta. repeat apply conj; vm_compute; reflexivity. Qed.

(** The check of the repository's test [test_resume_logic]: the final file
    of (TEST, Rrs) exists, the call returns its path. *)
Lemma extract_and_save_final_exists_witness :
  fst (extract_and_save (extractor 2) "TEST" [] (Some 0) (Some 0) "Rrs" finished_world)
  = inr (Some "TEST_Rrs_final.nc").
Proof.
  refine (proj1 (extract_and_save_final_exists (extractor 2) "TEST" [] (Some 0) (Some 0)
                   "Rrs" finished_world _)).
  vm_compute. by eexists.
Defined.

(** A record whose flags are 0 is kept as it is. *)
Lemma filter_rrc_masks_bits_1_3_5_witness :
  filter_rrc [pixel 1] !! 0%nat = Some (pixel 1).
Proof.
  refine (proj1 (proj2 (proj2 (filter_rrc_masks_bits_1_3_5 [pixel 1] 0 (pixel 1) _))) _).
  - reflexivity.
  - vm_compute. auto.
Defined.

(** The sample granule yields a record at the target (10, 5). *)
Lemma extract_granule_pixel_nearest_witness :
  exists r, _extract_granule_pixel (g "100") lat lon "Rrs" = inr r.
Proof.
  destruct (extract_granule_pixel_nearest (g "100") lat lon "Rrs"
              (nav "100") (geo "Rrs") band spectra "100" 100)
    as (iy & ix & plat & plon & spectrum & flags & H).
  all: try reflexivity.
  - intros v Hv. repeat (apply elem_of_cons in Hv as [->|Hv]; [reflexivity|]).
    by apply elem_of_nil in Hv.
  - exists 0%nat, 0%nat, (Some 10), (Some 5). repeat split; reflexivity.
  - eexists. apply H.
Defined.


(** One batch of two granules: one checkpoint file after the loop. *)
Lemma extract_and_save_full_batches_witness :
  length (list_checkpoints "ST" "Rrs"
            (dir (after_extraction (extractor 2) "ST" [g "2"; g "1"] lat lon "Rrs"
                    empty_world)))
  = 1%nat.
Proof.
  refine (proj1 (extract_and_save_full_batches (extractor 2) "ST" "Rrs" [g "2"; g "1"]
                   lat lon 2 _ _ 1 empty_world _ _ _ _ _ _ _ _)).
  - lia.
  - reflexivity.
  - lia.
  - reflexivity.
  - reflexivity.
  - vm_compute. reflexivity.
  - reflexivity.
  - reflexivity.
  - repeat (constructor; [vm_compute; by eexists|]). constructor.
  - reflexivity.
Defined.

(** Five granules in batches of two: checkpoint 1 holds the records of the
    granules at positions 0 and 1. *)
Lemma full_batch_checkpoint_contents_witness :
  dir (after_extraction (extractor 2) "ST" [g "1"; g "2"; g "3"; g "4"; g "5"] lat lon
         "Rrs" empty_world)
    !! name (Z.of_nat 1)
  = Some (mkNc (extracted lat lon (var_of "Rrs")
                  (take 2 (drop ((1 - 1) * 2) [g "1"; g "2"; g "3"; g "4"; g "5"]))) ∅).
Proof.
  refine (proj2 (full_batch_checkpoint_contents (extractor 2) "ST" "Rrs"
                   [g "1"; g "2"; g "3"; g "4"; g "5"] lat lon 2 _ _ 1 empty_world
                   _ _ _ _ _ _ _ _)).
  - lia.
  - reflexivity.
  - vm_compute. lia.
  - vm_compute. lia.
  - right. vm_compute. lia.
  - repeat (constructor; [vm_compute; by eexists|]). constructor.
  - reflexivity.
  - reflexivity.
  - reflexivity.
  - reflexivity.
Defined.


End Cases.

(** * Further properties of the code *)

(** ** Checkpoint paths *)

Section CheckpointPath.
Context {AL : ArrayLib}.

(** Two global indices are given the same checkpoint file exactly when
    their quotients by the batch size agree; for a key made of plain
    characters, the glob of the key lists the path in every directory that
    holds a file there. *)
Theorem get_checkpoint_path_same_file (self : PaceExtractor) (station_code product_type : string)
    (i j : Z) :
  batch_size self <> 0 ->
  (exists p, _get_checkpoint_path self station_code product_type i = inr p
             ∧ forall w : World,
                 Naming.plain station_code = true -> Naming.plain product_type = true ->
                 is_Some (dir w !! p) ->
                 exists l, fst (glob_checkpoints station_code product_type w) = inr l ∧ p ∈ l)
  ∧ (_get_checkpoint_path self station_code product_type i
     = _get_checkpoint_path self station_code product_type j
     ↔ i / batch_size self = j / batch_size self).
Proof.
  intros HN. unfold _get_checkpoint_path, py_floordiv.
  apply Z.eqb_neq in HN. rewrite HN. split.
  - eexists. split; [done|]. intros w HS HP Hp.
    unfold glob_checkpoints. rewrite HS, HP. cbn. eexists. split; [done|].
    apply elem_of_list_checkpoints. split; [done|].
    apply NamingFacts.checkpoint_name_match.
  - split.
    + intros H. apply (NamingFacts.checkpoint_name_inj station_code product_type).
      congruence.
    + by intros ->.
Qed.

End CheckpointPath.

(** ** The finalizer without checkpoints *)

Section FinalizeNone.
Context {AL : ArrayLib}.

(** [_finalize_station] returns [None] exactly when the key has no
    checkpoint; it has then listed the directory and done nothing else:
    no file is read, written or removed. *)
Theorem finalize_none_iff_no_checkpoint (self : PaceExtractor)
    (station_code product_type final_path : string) (w : World) :
  Naming.plain station_code = true -> Naming.plain product_type = true ->
  let result := _finalize_station self station_code product_type final_path w in
  (fst result = inr None ↔ list_checkpoints station_code product_type (dir w) = [])
  ∧ (list_checkpoints station_code product_type (dir w) = [] ->
     dir (snd result) = dir w
     ∧ new_events w (snd result) = [EvGlob station_code product_type]).
Proof.
  intros HS HP result. subst result.
  rewrite (finalize_run self station_code product_type final_path w HS HP). cbv zeta.
  destruct (list_checkpoints station_code product_type (dir w)) as [|c cps] eqn:Hc.
  - split; [done|]. intros _. split; [done|].
    by apply new_events_app.
  - split; [|done]. destruct (disk_ok w final_path); cbn; split; done.
Qed.

End FinalizeNone.

(** ** What a returned record holds *)

Section ExtractedRecord.
Context {AL : ArrayLib}.

(** Whenever [_extract_granule_pixel] returns a record, the granule has the
    three groups and the variable, the record is named after [var_name], its
    spectrum is as long as its wavelength axis (the axis of the band group),
    its time is the parsed time-coverage-start attribute, and its spectrum,
    flags, latitude and longitude are read at one same pixel of the grid. *)
Theorem extract_granule_pixel_record (g : Granule) (lat lon : num) (var_name : string)
    (r : PixelRecord) :
  _extract_granule_pixel g lat lon var_name = inr r ->
  rec_var r = var_name
  ∧ length (rec_spectrum r) = length (rec_wavelength r)
  ∧ exists nav geo band var stamp iy ix,
      navigation_data g = Some nav
      ∧ geophysical_data g = Some geo
      ∧ sensor_band_parameters g = Some band
      ∧ geo_vars geo !! var_name = Some var
      ∧ rec_wavelength r = band_wavelength band
      ∧ nav_attrs nav !! "time_coverage_start" = Some stamp
      ∧ to_datetime stamp = Some (rec_time r)
      ∧ isel var iy ix = inr (rec_spectrum r)
      ∧ isel (geo_l2_flags geo) iy ix = inr (rec_l2_flags r)
      ∧ isel (latitude nav) iy ix = inr (rec_lat r)
      ∧ isel (longitude nav) iy ix = inr (rec_lon r).
Proof.
  unfold _extract_granule_pixel. intros H.
  destruct (navigation_data g) as [nav|]; [|done].
  destruct (geophysical_data g) as [geo|]; [|done].
  destruct (sensor_band_parameters g) as [band|]; [|done].
  destruct (distance nav lat lon) as [e|dist]; [done|].
  destruct (argmin dist) as [e|idx]; [done|].
  destruct (unravel_index idx (shape dist)) as [iy ix].
  destruct (geo_vars geo !! var_name) as [var|] eqn:Hvar; [|done].
  destruct (isel var iy ix) as [e|spectrum] eqn:Hsp; [done|].
  destruct (nav_attrs nav !! "time_coverage_start") as [stamp|] eqn:Hst; [|done].
  destruct (to_datetime stamp) as [time|] eqn:Ht; [|done].
  destruct (isel (geo_l2_flags geo) iy ix) as [e|flags] eqn:Hfl; [done|].
  destruct (isel (latitude nav) iy ix) as [e|plat] eqn:Hla; [done|].
  destruct (isel (longitude nav) iy ix) as [e|plon] eqn:Hlo; [done|].
  destruct (decide (length spectrum = length (band_wavelength band))) as [Hlen|]; [|done].
  injection H as <-. cbn. split; [done|]. split; [done|].
  exists nav, geo, band, var, stamp, iy, ix. repeat split; done.
Qed.

End ExtractedRecord.

(** ** filter_rrc, applied twice *)

Section FilterTwice.
Context {AL : ArrayLib}.

(** [filter_rrc] masks and never drops: the result has the records of the
    input in the same order, with the same coordinates (time, flags,
    position, wavelength axis), and filtering again changes nothing. *)
Theorem filter_rrc_idempotent (ds : list PixelRecord) :
  filter_rrc (filter_rrc ds) = filter_rrc ds
  ∧ rec_time <$> filter_rrc ds = rec_time <$> ds
  ∧ rec_l2_flags <$> filter_rrc ds = rec_l2_flags <$> ds
  ∧ rec_lat <$> filter_rrc ds = rec_lat <$> ds
  ∧ rec_lon <$> filter_rrc ds = rec_lon <$> ds
  ∧ rec_wavelength <$> filter_rrc ds = rec_wavelength <$> ds
  ∧ (length ∘ rec_spectrum) <$> filter_rrc ds = (length ∘ rec_spectrum) <$> ds.
Proof.
  unfold filter_rrc.
  induction ds as [|r ds (IH & IHt & IHf & IHla & IHlo & IHw & IHs)]; [done|].
  cbn [fmap list_fmap zip_with].
  assert (l2_keep (where_record (l2_keep r) r) = l2_keep r) as Hk.
  { unfold where_record. by destruct (l2_keep r) eqn:Hr. }
  assert (where_record (l2_keep r) (where_record (l2_keep r) r) = where_record (l2_keep r) r)
    as Hw.
  { unfold where_record. destruct (l2_keep r); [done|]. cbn. f_equal.
    rewrite <- list_fmap_compose. done. }
  rewrite Hk, Hw, IH, IHt, IHf, IHla, IHlo, IHw, IHs.
  assert (length (rec_spectrum (where_record (l2_keep r) r)) = length (rec_spectrum r)) as Hl.
  { unfold where_record. destruct (l2_keep r); [done|]. cbn. by rewrite length_fmap. }
  unfold compose at 1 3. rewrite Hl.
  unfold where_record. by destruct (l2_keep r).
Qed.

End FilterTwice.

(** ** What the loop writes *)

Section LoopWrites.
Context {AL : ArrayLib}.
Variables (self : PaceExtractor) (station_code product_type : string).
Variables (lat lon : num) (var_name : string).
Variables (processed_count total_granules : Z).

Local Abbreviation name := (Naming.checkpoint_name station_code product_type).
Local Abbreviation matches := (Naming.checkpoint_match station_code product_type).
Local Abbreviation loop :=
  (extract_loop self station_code product_type lat lon var_name
     processed_count total_granules).
Local Abbreviation save :=
  (save_if_due self station_code product_type processed_count total_granules).
Local Abbreviation global_idx i := (processed_count + Z.of_nat i + 1).
Local Abbreviation good_writes := (good_writes station_code product_type).


Lemma good_writes_nil Q : good_writes Q [].
Proof. intros nm c H. by apply elem_of_nil in H. Qed.

Lemma good_writes_app Q evs1 evs2 :
  good_writes Q evs1 -> good_writes Q evs2 -> good_writes Q (evs1 ++ evs2).
Proof.
  intros H1 H2 nm c H. unfold writes in H. rewrite omap_app in H.
  apply elem_of_app in H as [H|H]; [by apply H1|by apply H2].
Qed.

Lemma good_writes_extract Q f : good_writes Q [EvExtract f].
Proof. intros nm c H. by apply elem_of_nil in H. Qed.

Lemma good_writes_write Q k cb :
  cb <> [] -> (forall r, r ∈ cb -> Q r) -> good_writes Q [EvWrite (name k) (mkNc cb ∅)].
Proof.
  intros Hne HQ nm c H. cbn in H. apply list_elem_of_singleton in H as [= -> ->].
  split; [apply NamingFacts.checkpoint_name_match|]. by split.
Qed.

(** One pass through the statements after the append. *)
Lemma save_if_due_writes (Q : PixelRecord -> Prop) i cb w :
  cb <> [] -> (forall r, r ∈ cb -> Q r) ->
  (forall r, r ∈ match fst (save i cb w) with inr cb' => cb' | inl _ => cb end -> Q r)
  ∧ (forall x, matches x = false -> dir (snd (save i cb w)) !! x = dir w !! x)
  ∧ (forall x, is_Some (dir w !! x) -> is_Some (dir (snd (save i cb w)) !! x))
  ∧ exists evs, trace (snd (save i cb w)) = (trace w ++ evs)%list ∧ good_writes Q evs.
Proof.
  intros Hne HQ.
  destruct (decide (batch_size self = 0)) as [H0|HN].
  { rewrite save_if_due_zero by done. cbn. repeat split; try done.
    exists []. split; [by rewrite app_nil_r|apply good_writes_nil]. }
  destruct (decide (global_idx i mod batch_size self = 0 ∨ global_idx i = total_granules))
    as [Hdue|Hnot].
  - destruct (disk_ok w (name (global_idx i / batch_size self))) eqn:Hok.
    + rewrite save_if_due_flush by done. cbn. split; [by intros r ?%elem_of_nil|].
      split; [|split].
      * intros x Hx. rewrite lookup_insert_ne; [done|].
        intros <-. by rewrite NamingFacts.checkpoint_name_match in Hx.
      * intros x Hx. destruct (decide (name (global_idx i / batch_size self) = x)) as [<-|?].
        -- by rewrite lookup_insert_eq.
        -- by rewrite lookup_insert_ne.
      * eexists. split; [done|]. by apply good_writes_write.
    + rewrite save_if_due_refused by done. cbn. split; [done|]. split; [|split].
      * intros x Hx. apply lookup_failed_write.
        intros ->. by rewrite NamingFacts.checkpoint_name_match in Hx.
      * intros x Hx. by apply is_Some_failed_write.
      * eexists. split; [done|]. by apply good_writes_write.
  - rewrite save_if_due_skip by tauto. cbn. repeat split; try done.
    exists []. split; [by rewrite app_nil_r|apply good_writes_nil].
Qed.

(** The loop as a whole: the batch it ends with and the checkpoints it
    writes are made of records the granules yield; the files it writes are
    checkpoints of the key; it removes nothing. *)
Lemma extract_loop_writes (Q : PixelRecord -> Prop) files : forall i cb w,
  (forall r, r ∈ cb -> Q r) ->
  (forall f r, f ∈ files -> pixel_of lat lon var_name f = Some r -> Q r) ->
  (forall r, r ∈ fst (loop i files cb w) -> Q r)
  ∧ (forall x, matches x = false -> dir (snd (loop i files cb w)) !! x = dir w !! x)
  ∧ (forall x, is_Some (dir w !! x) -> is_Some (dir (snd (loop i files cb w)) !! x))
  ∧ exists evs, trace (snd (loop i files cb w)) = (trace w ++ evs)%list ∧ good_writes Q evs.
Proof.
  induction files as [|f files IH]; intros i cb w Hcb Hfiles.
  { cbn. repeat split; try done. exists []. split; [by rewrite app_nil_r|apply good_writes_nil]. }
  assert (forall f' r, f' ∈ files -> pixel_of lat lon var_name f' = Some r -> Q r) as Hrest.
  { intros f' r Hf'. apply Hfiles. by right. }
  cbn [extract_loop].
  destruct (_extract_granule_pixel f lat lon var_name) as [e|px] eqn:Hx.
  - destruct (IH (S i) cb (emit (EvExtract f) w) Hcb Hrest) as (H1 & H2 & H3 & evs & Ht & Hw).
    split; [done|]. split; [done|]. split; [done|].
    exists (EvExtract f :: evs). split.
    + rewrite Ht. cbn. by rewrite <- app_assoc.
    + apply (good_writes_app Q [EvExtract f] evs); [apply good_writes_extract|done].
  - assert (forall r, r ∈ (cb ++ [px])%list -> Q r) as Hcb1.
    { intros r [Hr|Hr]%elem_of_app; [by apply Hcb|].
      apply list_elem_of_singleton in Hr as ->. apply (Hfiles f); [by left|].
      unfold pixel_of. by rewrite Hx. }
    assert ((cb ++ [px])%list <> []) as Hne by (by destruct cb).
    destruct (save_if_due_writes Q i (cb ++ [px])%list (emit (EvExtract f) w) Hne Hcb1)
      as (S1 & S2 & S3 & evs1 & St & Sw).
    destruct (save i (cb ++ [px])%list (emit (EvExtract f) w)) as [[e|cb2] w2];
      cbn [fst snd] in *.
    + destruct (IH (S i) (cb ++ [px])%list w2 S1 Hrest) as (H1 & H2 & H3 & evs & Ht & Hw).
      split; [done|]. split; [|split].
      * intros x Hm. by rewrite H2, S2.
      * intros x Hs. by apply H3, S3.
      * exists (EvExtract f :: evs1 ++ evs). split.
        -- rewrite Ht, St. cbn. by rewrite <- !app_assoc.
        -- apply (good_writes_app Q [EvExtract f]); [apply good_writes_extract|].
           by apply good_writes_app.
    + destruct (IH (S i) cb2 w2 S1 Hrest) as (H1 & H2 & H3 & evs & Ht & Hw).
      split; [done|]. split; [|split].
      * intros x Hm. by rewrite H2, S2.
      * intros x Hs. by apply H3, S3.
      * exists (EvExtract f :: evs1 ++ evs). split.
        -- rewrite Ht, St. cbn. by rewrite <- !app_assoc.
        -- apply (good_writes_app Q [EvExtract f]); [apply good_writes_extract|].
           by apply good_writes_app.
Qed.

End LoopWrites.

(** ** What a run touches and what it returns *)

Section RunFacts.
Context {AL : ArrayLib}.
Variables (self : PaceExtractor) (station_code product_type : string).
Variables (granules : list Granule) (lat lon : num).

Local Abbreviation final_path := (Naming.final_name station_code product_type).
Local Abbreviation matches := (Naming.checkpoint_match station_code product_type).
Local Abbreviation listing := (list_checkpoints station_code product_type).
Local Abbreviation finalize := (_finalize_station self station_code product_type final_path).
Local Abbreviation run := (extract_and_save self station_code granules lat lon product_type).
Local Abbreviation remaining w :=
  (py_slice_from granules (resume_point self station_code product_type w)).

Lemma writes_of_reads (l : list string) : writes (EvRead <$> l) = [].
Proof. induction l as [|x l IH]; [done|]. by cbn. Qed.

Lemma writes_of_unlinks (l : list string) : writes (EvUnlink <$> l) = [].
Proof. induction l as [|x l IH]; [done|]. by cbn. Qed.

(** The finalizer in short: what it leaves alone, what it writes, what its
    result tells. *)
Lemma finalize_summary (w : World) :
  Naming.plain station_code = true -> Naming.plain product_type = true ->
  (forall x, matches x = false -> x <> final_path ->
     dir (snd (finalize w)) !! x = dir w !! x)
  ∧ (exists evs, trace (snd (finalize w)) = (trace w ++ evs)%list
                 ∧ forall nm c, (nm, c) ∈ writes evs -> nm = final_path)
  ∧ (forall p, fst (finalize w) = inr (Some p) ->
       p = final_path ∧ is_Some (dir (snd (finalize w)) !! final_path)
       ∧ listing (dir (snd (finalize w))) = [])
  ∧ (fst (finalize w) = inr None -> dir (snd (finalize w)) = dir w ∧ listing (dir w) = []).
Proof.
  intros HS HP.
  pose proof (finalize_run self station_code product_type final_path w HS HP) as Hrun.
  cbv zeta in Hrun.
  destruct (listing (dir w)) as [|c cps] eqn:Hc.
  { rewrite Hrun. cbn. repeat split; try done.
    exists [EvGlob station_code product_type]. split; [done|].
    intros nm c H. by apply elem_of_nil in H. }
  assert (listing (dir w) <> []) as Hne by by rewrite Hc.
  destruct (finalize_outcome self station_code product_type w HS HP Hne) as [Hbad Hgood].
  rewrite <- Hc in Hrun.
  destruct (disk_ok w final_path) eqn:Hok.
  - destruct (Hgood eq_refl) as (Hfst & Hnil & Hlook & _ & _ & Hframe & Htrace).
    split; [|split; [|split]].
    + intros x Hm Hx. apply Hframe; [|done].
      intros Hin. apply elem_of_list_checkpoints in Hin as [_ Hin]. congruence.
    + eexists. split; [exact Htrace|].
      intros nm c0 H. unfold writes in H. cbn in H.
      rewrite omap_app in H. fold (writes (EvRead <$> listing (dir w))) in H.
      rewrite writes_of_reads in H. cbn in H.
      fold (writes (EvUnlink <$> listing (dir w))) in H. rewrite writes_of_unlinks in H.
      apply list_elem_of_singleton in H. congruence.
    + intros p Hp. rewrite Hfst in Hp. injection Hp as <-.
      split; [done|]. split; [by rewrite Hlook|done].
    + rewrite Hfst. done.
  - destruct (Hbad eq_refl) as (Hfst & Hdir & _ & _).
    split; [|split; [|split]].
    + intros x _ Hx. rewrite Hdir. by apply lookup_failed_write.
    + rewrite Hrun. cbn. eexists. split; [done|].
      intros nm c0 H. unfold writes in H. cbn in H.
      rewrite omap_app in H. fold (writes (EvRead <$> listing (dir w))) in H.
      rewrite writes_of_reads in H. cbn in H.
      apply list_elem_of_singleton in H. congruence.
    + rewrite Hfst. done.
    + rewrite Hfst. done.
Qed.

(** The loop of a run, seen from the world the run started in. *)
Lemma after_extraction_summary (w : World) :
  let w1 := after_extraction self station_code granules lat lon product_type w in
  (forall x, matches x = false -> dir w1 !! x = dir w !! x)
  ∧ (forall x, is_Some (dir w !! x) -> is_Some (dir w1 !! x))
  ∧ exists evs,
      trace w1 = (trace w ++ [EvExists final_path; EvGlob station_code product_type;
                              EvOpen (remaining w)] ++ evs)%list
      ∧ good_writes station_code product_type
          (fun r => r ∈ extracted lat lon (var_of product_type) (remaining w)) evs.
Proof.
  intros w1. unfold after_extraction in w1.
  match goal with w1 := snd (extract_loop ?a ?b ?c ?d ?e ?f ?g ?h ?i ?j ?k ?l) |- _ =>
    destruct (extract_loop_writes a b c d e f g h
                (fun r => r ∈ extracted lat lon (var_of product_type) (remaining w))
                j i k l) as (_ & H2 & H3 & evs & Ht & Hw)
  end.
  - by intros r ?%elem_of_nil.
  - intros f r Hf Hr. unfold extracted. apply list_elem_of_omap. eauto.
  - fold w1 in H2, H3, Ht. split; [done|]. split; [done|].
    exists evs. split; [|done]. rewrite Ht. unfold checked, emit. cbn.
    by rewrite <- !app_assoc.
Qed.

(** A run leaves every file alone that is neither a checkpoint of its key
    nor its final artifact, whatever the granules and the disk do. *)
Theorem extract_and_save_touches_own_files_only (w : World) (x : string) :
  Naming.plain station_code = true -> Naming.plain product_type = true ->
  matches x = false -> x <> final_path ->
  dir (snd (run w)) !! x = dir w !! x.
Proof.
  intros HS HP Hm Hx.
  destruct (dir w !! final_path) as [f|] eqn:Hfinal.
  { rewrite extract_and_save_short_circuit by by eexists. done. }
  rewrite extract_and_save_run by done.
  destruct ((_ && _)%bool).
  - destruct (finalize_summary (checked station_code product_type w) HS HP) as [Hframe _].
    by rewrite Hframe.
  - set (w1 := after_extraction self station_code granules lat lon product_type w).
    destruct (finalize_summary w1 HS HP) as [Hframe _].
    destruct (after_extraction_summary w) as [Hloop _].
    rewrite Hframe by done. by apply Hloop.
Qed.

(** Every file a run writes is its final artifact or a checkpoint of its
    key; a checkpoint written is never empty and holds only records that
    granules of [granules[processed_count:]] yield. *)
Theorem extract_and_save_writes (w : World) (nm : string) (c : NcFile) :
  Naming.plain station_code = true -> Naming.plain product_type = true ->
  (nm, c) ∈ writes (new_events w (snd (run w))) ->
  nm = final_path
  ∨ (matches nm = true ∧ nc_records c <> []
     ∧ forall r, r ∈ nc_records c ->
         r ∈ extracted lat lon (var_of product_type) (remaining w)).
Proof.
  intros HS HP.
  destruct (dir w !! final_path) as [f|] eqn:Hfinal.
  { rewrite extract_and_save_short_circuit by by eexists.
    rewrite (new_events_app w _ [EvExists final_path]) by done.
    by intros ?%elem_of_nil. }
  rewrite extract_and_save_run by done.
  destruct ((_ && _)%bool).
  - destruct (finalize_summary (checked station_code product_type w) HS HP)
      as (_ & (evs & Ht & Hw) & _).
    rewrite (new_events_app w _
               ([EvExists final_path; EvGlob station_code product_type] ++ evs)).
    + intros H. left. apply (Hw nm c). unfold writes in *. by rewrite omap_app in H.
    + rewrite Ht. unfold checked, emit. cbn. by rewrite <- !app_assoc.
  - set (w1 := after_extraction self station_code granules lat lon product_type w).
    destruct (finalize_summary w1 HS HP) as (_ & (evs & Ht & Hw) & _).
    destruct (after_extraction_summary w) as (_ & _ & levs & Hlt & Hlw).
    fold w1 in Hlt.
    rewrite (new_events_app w _
               (([EvExists final_path; EvGlob station_code product_type;
                  EvOpen (remaining w)] ++ levs) ++ evs)).
    + intros H. unfold writes in H. rewrite !omap_app in H. cbn in H.
      apply elem_of_app in H as [H|H]; [right; by apply Hlw|left; by apply (Hw nm c)].
    + rewrite Ht, Hlt. by rewrite <- !app_assoc.
Qed.

(** What the result of a run tells.  A path returned is the final path, the
    final artifact then exists, and a further call with the same inputs
    returns the same path and leaves the directory as it is.  [None]
    returned means that the directory holds neither the final artifact nor
    a checkpoint of the key. *)
Theorem extract_and_save_outcome (w : World) :
  Naming.plain station_code = true -> Naming.plain product_type = true ->
  (forall p, fst (run w) = inr (Some p) ->
     p = final_path
     ∧ is_Some (dir (snd (run w)) !! final_path)
     ∧ fst (run (snd (run w))) = inr (Some final_path)
     ∧ dir (snd (run (snd (run w)))) = dir (snd (run w)))
  ∧ (fst (run w) = inr None ->
     dir (snd (run w)) !! final_path = None ∧ listing (dir (snd (run w))) = []).
Proof.
  intros HS HP.
  assert (forall p, fst (run w) = inr (Some p) ->
            p = final_path ∧ is_Some (dir (snd (run w)) !! final_path)) as Hsome.
  { intros p. destruct (dir w !! final_path) as [f|] eqn:Hfinal.
    { rewrite extract_and_save_short_circuit by by eexists. cbn.
      intros [= <-]. by rewrite Hfinal. }
    rewrite extract_and_save_run by done.
    destruct ((_ && _)%bool).
    - destruct (finalize_summary (checked station_code product_type w) HS HP)
        as (_ & _ & H & _).
      intros Hp. by destruct (H p Hp) as (? & ? & _).
    - destruct (finalize_summary
                  (after_extraction self station_code granules lat lon product_type w)
                  HS HP) as (_ & _ & H & _).
      intros Hp. by destruct (H p Hp) as (? & ? & _). }
  split.
  - intros p Hp. destruct (Hsome p Hp) as [-> Hex]. split; [done|]. split; [done|].
    by rewrite extract_and_save_short_circuit.
  - destruct (dir w !! final_path) as [f|] eqn:Hfinal.
    { by rewrite extract_and_save_short_circuit by by eexists. }
    assert (matches final_path = false) as Hnm by apply NamingFacts.final_name_no_match.
    rewrite extract_and_save_run by done.
    destruct ((_ && _)%bool).
    + destruct (finalize_summary (checked station_code product_type w) HS HP)
        as (_ & _ & _ & H).
      intros Hn. destruct (H Hn) as [-> Hl]. done.
    + set (w1 := after_extraction self station_code granules lat lon product_type w).
      destruct (finalize_summary w1 HS HP) as (_ & _ & _ & H).
      destruct (after_extraction_summary w) as [Hloop _].
      intros Hn. destruct (H Hn) as [-> Hl]. split; [|done].
      fold w1 in Hloop. by rewrite Hloop.
Qed.

End RunFacts.

(** ** Degenerate batch sizes *)

Section ZeroBatch.
Context {AL : ArrayLib}.
Variables (self : PaceExtractor) (station_code product_type : string).
Variables (granules : list Granule) (lat lon : num).

Local Abbreviation final_path := (Naming.final_name station_code product_type).
Local Abbreviation listing := (list_checkpoints station_code product_type).
Local Abbreviation run := (extract_and_save self station_code granules lat lon product_type).

(** With a batch size of 0 the test of the batch raises at every granule and
    the exception is swallowed: the records pile up in the batch and are
    never written. *)
Lemma extract_loop_zero (var_name : string) (processed_count total_granules : Z) files :
  forall i cb w,
  batch_size self = 0 ->
  extract_loop self station_code product_type lat lon var_name processed_count
    total_granules i files cb w
  = ((cb ++ extracted lat lon var_name files)%list, emit_all (EvExtract <$> files) w).
Proof.
  induction files as [|f files IH]; intros i cb w H0.
  { cbn. by rewrite app_nil_r, emit_all_nil. }
  cbn [extract_loop]. unfold extracted. cbn [omap list_omap]. unfold pixel_of at 1.
  destruct (_extract_granule_pixel f lat lon var_name) as [e|px].
  - rewrite IH by done. cbn. by rewrite emit_all_emit.
  - rewrite save_if_due_zero by done. rewrite IH by done. cbn.
    by rewrite emit_all_emit, <- app_assoc.
Qed.

(** With [batch_size = 0] a run that finds no final artifact reads every
    granule and writes no checkpoint: the directory is as before when the
    finalizer is called, and from a clean state the run returns [None],
    every extracted record being lost. *)
Theorem zero_batch_size_saves_nothing (w : World) :
  batch_size self = 0 ->
  dir w !! final_path = None ->
  Naming.plain station_code = true -> Naming.plain product_type = true ->
  let w1 := after_extraction self station_code granules lat lon product_type w in
  run w = _finalize_station self station_code product_type final_path w1
  ∧ dir w1 = dir w
  ∧ extractions (new_events w w1) = granules
  ∧ writes (new_events w w1) = []
  ∧ (listing (dir w) = [] -> fst (run w) = inr None ∧ dir (snd (run w)) = dir w).
Proof.
  intros H0 Hfin HS HP w1.
  assert (resume_point self station_code product_type w = 0) as Hpc
    by (unfold resume_point; rewrite H0; lia).
  assert (w1 = emit_all (EvExtract <$> granules)
                 (emit (EvOpen granules) (checked station_code product_type w))) as Hw1.
  { unfold w1, after_extraction. rewrite Hpc. change (py_slice_from granules 0) with granules.
    by rewrite extract_loop_zero. }
  assert (forall l : list Granule,
            extractions (EvExtract <$> l) = l ∧ writes (EvExtract <$> l) = []) as Hev.
  { induction l as [|x l [IH1 IH2]]; [done|]. unfold extractions, writes in *. cbn.
    by rewrite IH1, IH2. }
  assert (run w = _finalize_station self station_code product_type final_path w1) as Hrun.
  { rewrite extract_and_save_run by done. rewrite Hpc.
    destruct (Z.geb_spec 0 (Z.of_nat (length granules))) as [Hge|Hlt]; [|done].
    destruct (Z.gtb_spec (Z.of_nat (length granules)) 0); [lia|done]. }
  assert (new_events w w1
          = [EvExists final_path; EvGlob station_code product_type; EvOpen granules]
              ++ (EvExtract <$> granules))%list as Hnew.
  { apply new_events_app. rewrite Hw1. unfold emit_all, checked, emit. cbn.
    by rewrite <- !app_assoc. }
  split; [done|]. split; [by rewrite Hw1|].
  destruct (Hev granules) as [He Hw]. unfold extractions, writes in He, Hw.
  split; [|split].
  - rewrite Hnew. unfold extractions. rewrite omap_app. cbn [omap list_omap app].
    by rewrite He.
  - rewrite Hnew. unfold writes. rewrite omap_app. cbn [omap list_omap app].
    by rewrite Hw.
  - intros Hclean. rewrite Hrun.
    rewrite (finalize_run self station_code product_type final_path w1 HS HP). cbv zeta.
    assert (dir w1 = dir w) as -> by by rewrite Hw1.
    rewrite Hclean. split; [done|]. cbn [snd]. unfold emit. cbn [dir]. by rewrite Hw1.
Qed.

End ZeroBatch.

(** ** A batch size of 1 *)

Section SingleBatch.
Context {AL : ArrayLib}.
Variables (self : PaceExtractor) (station_code product_type : string).
Variables (lat lon : num) (var_name : string).
Variables (processed_count total_granules : Z).

Local Abbreviation name := (Naming.checkpoint_name station_code product_type).
Local Abbreviation loop :=
  (extract_loop self station_code product_type lat lon var_name
     processed_count total_granules).
Local Abbreviation singles := (singles station_code product_type lat lon var_name).

Lemma singles_records files : forall g,
  (singles g files).*2 = extracted lat lon var_name files.
Proof.
  induction files as [|f files IH]; intros g; [done|].
  cbn [singles]. unfold extracted. cbn [omap list_omap].
  destruct (pixel_of lat lon var_name f); cbn; [f_equal|]; apply IH.
Qed.

Lemma singles_names files : forall g x,
  x ∈ (singles g files).*1 -> exists k, g < k ∧ x = name k.
Proof.
  induction files as [|f files IH]; intros g x Hx.
  { by apply elem_of_nil in Hx. }
  cbn [singles] in Hx. destruct (pixel_of lat lon var_name f).
  - cbn in Hx. apply elem_of_cons in Hx as [->|Hx].
    + exists (g + 1). split; [lia|done].
    + destruct (IH _ _ Hx) as (k & Hk & ->). exists k. split; [lia|done].
  - destruct (IH _ _ Hx) as (k & Hk & ->). exists k. split; [lia|done].
Qed.

Lemma NoDup_singles files : forall g, NoDup (singles g files).*1.
Proof.
  induction files as [|f files IH]; intros g; [constructor|].
  cbn [singles]. destruct (pixel_of lat lon var_name f); [|apply IH].
  cbn. constructor; [|apply IH].
  intros Hin. apply singles_names in Hin as (k & Hk & Heq).
  apply NamingFacts.checkpoint_name_inj in Heq. lia.
Qed.

Lemma store_singles_cons nm r l d :
  store_singles ((nm, r) :: l) d = store_singles l (<[nm := mkNc [r] ∅]> d).
Proof. done. Qed.

Lemma store_singles_miss l : forall d x,
  x ∉ l.*1 -> store_singles l d !! x = d !! x.
Proof.
  induction l as [|[nm r] l IH]; intros d x Hx; [done|].
  cbn in Hx. apply not_elem_of_cons in Hx as [Hne Hx].
  rewrite store_singles_cons, IH by done. by rewrite lookup_insert_ne.
Qed.

Lemma store_singles_hit l : forall d nm r,
  NoDup l.*1 -> (nm, r) ∈ l -> store_singles l d !! nm = Some (mkNc [r] ∅).
Proof.
  induction l as [|[nm' r'] l IH]; intros d nm r Hnd Hin.
  { by apply elem_of_nil in Hin. }
  cbn in Hnd. apply NoDup_cons in Hnd as [Hout Hnd].
  rewrite store_singles_cons.
  apply elem_of_cons in Hin as [Heq|Hin].
  - simplify_eq. rewrite store_singles_miss by done. by rewrite lookup_insert_eq.
  - by apply IH.
Qed.

Lemma files_of_singles l d :
  NoDup l.*1 ->
  files_of (store_singles l d) l.*1 = (fun x => mkNc [x.2] ∅) <$> l.
Proof.
  intros Hnd. unfold files_of.
  assert (forall l', l' ⊆ l ->
            omap (fun x => store_singles l d !! x) l'.*1 = (fun x => mkNc [x.2] ∅) <$> l')
    as H; [|by apply H].
  induction l' as [|[nm r] l' IH]; intros Hsub; [done|].
  cbn. rewrite (store_singles_hit l d nm r Hnd) by (apply Hsub; left).
  cbn. f_equal. apply IH. intros y Hy. apply Hsub. by right.
Qed.

Lemma concat_singles (l : list (string * PixelRecord)) :
  concat (nc_records <$> ((fun x => mkNc [x.2] ∅) <$> l)) = l.*2.
Proof. induction l as [|x l IH]; [done|]. cbn. by rewrite IH. Qed.

(** With a batch size of 1 every record is written as soon as it is
    extracted, under the position of its granule, and the batch is empty
    again. *)
Lemma loop_singles files : forall i w,
  batch_size self = 1 ->
  (forall p, disk_ok w p = true) ->
  fst (loop i files [] w) = []
  ∧ dir (snd (loop i files [] w))
    = store_singles (singles (processed_count + Z.of_nat i) files) (dir w).
Proof.
  induction files as [|f files IH]; intros i w H1 Hdisk; [done|].
  cbn [extract_loop singles]. unfold pixel_of.
  destruct (_extract_granule_pixel f lat lon var_name) as [e|r].
  - replace (processed_count + Z.of_nat i + 1) with (processed_count + Z.of_nat (S i)) by lia.
    by destruct (IH (S i) (emit (EvExtract f) w) H1) as [IH1 IH2].
  - cbn [app]. rewrite save_if_due_flush; [|lia|left; rewrite H1; apply Z.mod_1_r|by cbn].
    rewrite H1, Z.div_1_r.
    replace (processed_count + Z.of_nat i + 1) with (processed_count + Z.of_nat (S i)) by lia.
    destruct (IH (S i) (written station_code product_type (processed_count + Z.of_nat (S i)) [r]
                          (emit (EvExtract f) w)) H1) as [IH1 IH2]; [done|].
    split; [done|]. rewrite IH2. done.
Qed.

End SingleBatch.

Section SingleRun.
Context {AL : ArrayLib}.
Variables (self : PaceExtractor) (station_code product_type : string).
Variables (granules : list Granule) (lat lon : num).

Local Abbreviation final_path := (Naming.final_name station_code product_type).
Local Abbreviation listing := (list_checkpoints station_code product_type).
Local Abbreviation run := (extract_and_save self station_code granules lat lon product_type).
Local Abbreviation recs := (extracted lat lon (var_of product_type)).

(** With [batch_size = 1], from a clean state and on a disk that takes every
    write, no extracted record is lost, whatever granules fail: the final
    artifact holds exactly the records of the granules that extract, in time
    order; when none extracts the run returns [None]. *)
Theorem batch_size_one_loses_no_record (w : World) :
  batch_size self = 1 ->
  dir w !! final_path = None ->
  listing (dir w) = [] ->
  Naming.plain station_code = true -> Naming.plain product_type = true ->
  (forall p, disk_ok w p = true) ->
  (recs granules = [] -> fst (run w) = inr None)
  ∧ (recs granules <> [] ->
     exists content,
       fst (run w) = inr (Some final_path)
       ∧ dir (snd (run w)) !! final_path = Some content
       ∧ Sorted time_le (nc_records content)
       ∧ nc_records content ≡ₚ recs granules
       ∧ listing (dir (snd (run w))) = []).
Proof.
  intros H1 Hfin Hclean HS HP Hdisk.
  assert (resume_point self station_code product_type w = 0) as Hpc
    by (unfold resume_point; rewrite Hclean; cbn; lia).
  assert (run w = _finalize_station self station_code product_type final_path
                    (after_extraction self station_code granules lat lon product_type w))
    as Hrun.
  { rewrite extract_and_save_run by done. rewrite Hpc.
    destruct (Z.geb_spec 0 (Z.of_nat (length granules))) as [Hge|Hlt]; [|done].
    destruct (Z.gtb_spec (Z.of_nat (length granules)) 0); [lia|done]. }
  set (l := singles station_code product_type lat lon (var_of product_type) 0 granules).
  set (w1 := after_extraction self station_code granules lat lon product_type w) in *.
  assert (dir w1 = store_singles l (dir w) ∧ forall p, disk_ok w1 p = true) as [Hdir Hdisk1].
  { unfold w1, after_extraction. rewrite Hpc.
    change (py_slice_from granules 0) with granules.
    split.
    - destruct (loop_singles self station_code product_type lat lon (var_of product_type)
                  0 (Z.of_nat (length granules)) granules 0
                  (emit (EvOpen granules) (checked station_code product_type w)) H1)
        as [_ Hd]; [done|]. by rewrite Hd.
    - intros p.
      destruct (extract_loop_effects self station_code product_type lat lon
                  (var_of product_type) 0 (Z.of_nat (length granules)) granules 0 []
                  (emit (EvOpen granules) (checked station_code product_type w)))
        as (evs & _ & _ & _ & _ & Hd & _).
      rewrite Hd. apply Hdisk. }
  assert (NoDup l.*1) as Hnd by apply NoDup_singles.
  assert (l.*2 = recs granules) as Hrecs by apply singles_records.
  assert (listing (dir w1) ≡ₚ l.*1) as Hperm.
  { apply list_checkpoints_perm; [done|]. intros x. rewrite Hdir. split.
    - intros Hx. apply list_elem_of_fmap in Hx as Hx'. destruct Hx' as ([nm r] & -> & Hin).
      cbn [fst] in *.
      split; [by rewrite (store_singles_hit l (dir w) nm r Hnd Hin)|].
      apply singles_names in Hx as (k & _ & ->). apply NamingFacts.checkpoint_name_match.
    - intros [Hsome Hm]. destruct (decide (x ∈ l.*1)) as [|Hout]; [done|].
      rewrite store_singles_miss in Hsome by done.
      assert (x ∈ listing (dir w)) as Hx by by apply elem_of_list_checkpoints.
      rewrite Hclean in Hx. by apply elem_of_nil in Hx. }
  split.
  - intros Hnone. rewrite Hrun.
    rewrite (finalize_run self station_code product_type final_path w1 HS HP). cbv zeta.
    assert (l = []) as Hl.
    { rewrite <- Hrecs in Hnone. by destruct l. }
    rewrite Hl in Hperm. apply Permutation_nil_r in Hperm. by rewrite Hperm.
  - intros Hsome.
    assert (listing (dir w1) <> []) as Hne.
    { intros Hnil. rewrite Hnil in Hperm. symmetry in Hperm.
      apply Permutation_nil_r in Hperm. apply Hsome. rewrite <- Hrecs.
      by destruct l. }
    destruct (finalize_outcome self station_code product_type w1 HS HP Hne) as [_ Hgood].
    destruct (Hgood (Hdisk1 _)) as (R1 & R2 & R3 & R4 & R5 & _).
    exists (final_content station_code product_type (dir w1)).
    rewrite Hrun. repeat split; try done.
    etrans; [apply R5|].
    etrans; [apply concat_perm, fmap_Permutation, omap_Permutation, Hperm|].
    fold (files_of (dir w1) l.*1). rewrite Hdir, files_of_singles by done.
    by rewrite concat_singles, Hrecs.
Qed.

End SingleRun.

(** ** A run that raises at the final write *)

Section Raises.
Context {AL : ArrayLib}.
Variables (self : PaceExtractor) (station_code product_type : string).
Variables (granules : list Granule) (lat lon : num).

Local Abbreviation final_path := (Naming.final_name station_code product_type).
Local Abbreviation matches := (Naming.checkpoint_match station_code product_type).
Local Abbreviation listing := (list_checkpoints station_code product_type).
Local Abbreviation finalize := (_finalize_station self station_code product_type final_path).
Local Abbreviation run := (extract_and_save self station_code granules lat lon product_type).

(** A finalizer that raises: the write of the final artifact failed,
    nothing was deleted, and the directory differs from the one before at
    the final path at most, by what the failed write left there. *)
Lemma finalize_raises (w : World) (e : Exception) :
  Naming.plain station_code = true -> Naming.plain product_type = true ->
  fst (finalize w) = inl e ->
  e = OSError final_path ∧ disk_ok w final_path = false
  ∧ listing (dir w) <> []
  ∧ dir (snd (finalize w))
    = failed_write final_path (final_content station_code product_type (dir w)) w
  ∧ exists evs, trace (snd (finalize w)) = (trace w ++ evs)%list ∧ unlinks evs = [].
Proof.
  intros HS HP.
  pose proof (finalize_run self station_code product_type final_path w HS HP) as Hrun.
  cbv zeta in Hrun.
  destruct (listing (dir w)) as [|c cps] eqn:Hc; [by rewrite Hrun|].
  destruct (disk_ok w final_path) eqn:Hok; rewrite Hrun; [done|].
  cbn [fst snd]. intros [= <-]. repeat split; try done.
  eexists. split; [done|]. unfold unlinks. cbn. rewrite omap_app. cbn.
  rewrite app_nil_r. clear. induction cps as [|x l IH]; [done|]. by cbn.
Qed.

(** A run that raises the error of the final write.  There was no final
    artifact when it started and the disk refused the write; checkpoints of
    the key are there, every file that was there is still there and nothing
    was deleted.  At the final path there is now what the failed write left:
    a file, or nothing. *)
Theorem extract_and_save_raises (w : World) :
  Naming.plain station_code = true -> Naming.plain product_type = true ->
  fst (run w) = inl (OSError final_path) ->
  disk_ok w final_path = false
  ∧ dir w !! final_path = None
  ∧ listing (dir (snd (run w))) <> []
  ∧ (forall x, is_Some (dir w !! x) -> is_Some (dir (snd (run w)) !! x))
  ∧ unlinks (new_events w (snd (run w))) = []
  ∧ dir (snd (run w)) !! final_path
    = leftover w final_path (final_content station_code product_type (dir (snd (run w)))).
Proof.
  intros HS HP.
  assert (forall v : World,
            listing (failed_write final_path
                       (final_content station_code product_type (dir v)) v)
            = listing (dir v)
            ∧ final_content station_code product_type
                (failed_write final_path (final_content station_code product_type (dir v)) v)
              = final_content station_code product_type (dir v)) as Hext.
  { intros v.
    assert (forall x, matches x = true ->
              failed_write final_path (final_content station_code product_type (dir v)) v !! x
              = dir v !! x) as Hsame.
    { intros x Hx. apply lookup_failed_write. intros ->.
      by rewrite NamingFacts.final_name_no_match in Hx. }
    split.
    - apply list_checkpoints_ext. intros x Hx. by rewrite Hsame.
    - by apply final_content_ext. }
  destruct (dir w !! final_path) as [f|] eqn:Hfinal.
  { by rewrite extract_and_save_short_circuit by by eexists. }
  rewrite extract_and_save_run by done.
  destruct ((_ && _)%bool).
  - intros He.
    destruct (finalize_raises (checked station_code product_type w) _ HS HP He)
      as (_ & Hok & Hne & Hdir & evs & Ht & Hu).
    destruct (Hext (checked station_code product_type w)) as [Hl Hc].
    rewrite Hdir, Hl, Hc. split; [done|]. split; [done|]. split; [done|]. split; [|split].
    + intros x Hx. by apply is_Some_failed_write.
    + rewrite (new_events_app w _ ([EvExists final_path; EvGlob station_code product_type]
                                     ++ evs)%list); [done|].
      rewrite Ht. unfold checked, emit. cbn. by rewrite <- !app_assoc.
    + rewrite lookup_failed_write_eq. cbn [dir leftover checked emit].
      rewrite Hfinal. by destruct (leftover w _ _).
  - set (w1 := after_extraction self station_code granules lat lon product_type w).
    intros He.
    destruct (finalize_raises w1 _ HS HP He) as (_ & Hok & Hne & Hdir & evs & Ht & Hu).
    destruct (after_extraction_summary self station_code product_type granules lat lon w)
      as (Hframe & Hkeep & _).
    fold w1 in Hframe, Hkeep.
    assert (exists evs', trace w1
                         = ((trace w ++ [EvExists final_path; EvGlob station_code product_type;
                                         EvOpen (py_slice_from granules
                                           (resume_point self station_code product_type w))])
                              ++ evs')%list
                         ∧ unlinks evs' = [] ∧ disk_ok w1 = disk_ok w
                         ∧ leftover w1 = leftover w)
      as (evs' & Ht' & Hu' & Hd' & Hl').
    { unfold w1, after_extraction. cbv zeta.
      match goal with |- context [extract_loop ?a ?b ?c ?d ?e ?f ?g ?h ?i ?j ?k ?l] =>
        destruct (extract_loop_effects a b c d e f g h j i k l)
          as (evs' & Ht' & _ & _ & Hu' & Hd' & _);
        pose proof (extract_loop_leftover a b c d e f g h j i k l) as Hl'
      end.
      exists evs'. rewrite Ht', Hd', Hl'. split; [|done].
      unfold checked, emit. cbn. by rewrite <- !app_assoc. }
    rewrite Hd' in Hok. rewrite Ht' in Ht.
    destruct (Hext w1) as [Hl Hc].
    rewrite Hdir, Hl, Hc. split; [done|]. split; [done|]. split; [done|]. split; [|split].
    + intros x Hx. by apply is_Some_failed_write, Hkeep.
    + rewrite (new_events_app w _
                 ([EvExists final_path; EvGlob station_code product_type;
                   EvOpen (py_slice_from granules
                             (resume_point self station_code product_type w))]
                    ++ evs' ++ evs)%list).
      * unfold unlinks in *. rewrite !omap_app. rewrite Hu, Hu'. done.
      * rewrite Ht. by rewrite <- !app_assoc.
    + rewrite lookup_failed_write_eq, Hl'.
      rewrite Hframe by apply NamingFacts.final_name_no_match.
      rewrite Hfinal. by destruct (leftover w _ _).
Qed.

End Raises.

(** ** The loop and the disk *)

Section LoopDisk.
Context {AL : ArrayLib}.
Variables (self : PaceExtractor) (station_code product_type : string).
Variables (lat lon : num) (var_name : string).
Variables (processed_count total_granules : Z).

Local Abbreviation name := (Naming.checkpoint_name station_code product_type).
Local Abbreviation loop :=
  (extract_loop self station_code product_type lat lon var_name
     processed_count total_granules).
Local Abbreviation save :=
  (save_if_due self station_code product_type processed_count total_granules).

Lemma with_disk_same (w : World) : with_disk (disk_ok w) w = w.
Proof. by destruct w. Qed.

(** The statements after the append look at the disk at a checkpoint name
    only. *)
Lemma save_if_due_disk (f : string -> bool) i cb w :
  (forall k, f (name k) = disk_ok w (name k)) ->
  save i cb (with_disk f w) = (fst (save i cb w), with_disk f (snd (save i cb w))).
Proof.
  intros Hf.
  destruct (decide (batch_size self = 0)) as [H0|HN].
  { by rewrite !save_if_due_zero. }
  destruct (decide ((processed_count + Z.of_nat i + 1) mod batch_size self = 0
                    ∨ processed_count + Z.of_nat i + 1 = total_granules)) as [Hdue|Hnot].
  - destruct (disk_ok w (name ((processed_count + Z.of_nat i + 1) / batch_size self)))
      eqn:Hok.
    + rewrite (save_if_due_flush _ _ _ _ _ i cb w) by done.
      rewrite save_if_due_flush; [done|done|done|]. cbn. by rewrite Hf.
    + rewrite (save_if_due_refused _ _ _ _ _ i cb w) by done.
      rewrite save_if_due_refused; [done|done|done|]. cbn. by rewrite Hf.
  - rewrite !save_if_due_skip by tauto. done.
Qed.

(** So does the loop: on a disk that differs at other names only it goes
    the same way. *)
Lemma loop_disk (f : string -> bool) files : forall i cb w,
  (forall k, f (name k) = disk_ok w (name k)) ->
  loop i files cb (with_disk f w)
  = (fst (loop i files cb w), with_disk f (snd (loop i files cb w))).
Proof.
  induction files as [|x files IH]; intros i cb w Hf; [done|].
  cbn [extract_loop].
  change (emit (EvExtract x) (with_disk f w)) with (with_disk f (emit (EvExtract x) w)).
  destruct (_extract_granule_pixel x lat lon var_name) as [e|px].
  - by apply IH.
  - rewrite save_if_due_disk by done.
    pose proof (save_if_due_effects self station_code product_type processed_count
                  total_granules i (cb ++ [px]) (emit (EvExtract x) w))
      as (_ & _ & _ & _ & _ & Hd & _).
    destruct (save i (cb ++ [px])%list (emit (EvExtract x) w)) as [[e|cb2] w2];
      cbn [fst snd] in *; apply IH; intros k; by rewrite Hd.
Qed.

End LoopDisk.

(** ** A run after a failed final write *)

Section Retry.
Context {AL : ArrayLib}.
Variables (self : PaceExtractor) (station_code product_type : string).
Variables (granules : list Granule) (lat lon : num).
Variable n : nat.
Hypothesis n_pos : (0 < n)%nat.
Hypothesis batch_size_n : batch_size self = Z.of_nat n.

Local Abbreviation name := (Naming.checkpoint_name station_code product_type).
Local Abbreviation final_path := (Naming.final_name station_code product_type).
Local Abbreviation var_name := (var_of product_type).
Local Abbreviation recs := (extracted lat lon var_name).
Local Abbreviation listing := (list_checkpoints station_code product_type).
Local Abbreviation batches := (batches_world station_code product_type lat lon var_name n).
Local Abbreviation names := (batch_names station_code product_type).
Local Abbreviation run := (extract_and_save self station_code granules lat lon product_type).

(** The loop of a run goes the same way on a disk that differs at names
    that are no checkpoint names of the key. *)
Lemma after_extraction_disk (f : string -> bool) (w : World) :
  (forall k, f (name k) = disk_ok w (name k)) ->
  after_extraction self station_code granules lat lon product_type (with_disk f w)
  = with_disk f (after_extraction self station_code granules lat lon product_type w).
Proof.
  clear n_pos batch_size_n.
  intros Hf. unfold after_extraction. cbv zeta.
  change (resume_point self station_code product_type (with_disk f w))
    with (resume_point self station_code product_type w).
  match goal with |- context [emit ?e (checked ?s ?p (with_disk f w))] =>
    change (emit e (checked s p (with_disk f w))) with (with_disk f (emit e (checked s p w)))
  end.
  by rewrite loop_disk.
Qed.

(** The directory the loop leaves from a clean state when the granules make
    [m] full batches, all extract and the checkpoint writes go through. *)
Lemma full_batches_directory (m : nat) (w : World) :
  length granules = (m * n)%nat ->
  listing (dir w) = [] ->
  all_extract lat lon var_name granules ->
  (forall k, disk_ok w (name k) = true) ->
  let w1 := after_extraction self station_code granules lat lon product_type w in
  listing (dir w1) ≡ₚ names 0 m
  ∧ concat (nc_records <$> files_of (dir w1) (listing (dir w1))) ≡ₚ recs granules
  ∧ dir w1 !! final_path = dir w !! final_path
  ∧ disk_ok w1 = disk_ok w.
Proof.
  intros Hlen Hclean Hok Hdisk w1.
  set (v := with_disk (fun _ => true) w).
  set (v0 := emit (EvOpen granules) (checked station_code product_type v)).
  assert (after_extraction self station_code granules lat lon product_type v
          = batches m 0 granules v0) as Hv1.
  { pose proof (after_extraction_all_extract self station_code product_type granules
                  lat lon n n_pos batch_size_n v) as H.
    cbv zeta in H. change (dir v) with (dir w) in H.
    rewrite Hclean in H. cbn [length Nat.mul drop] in H.
    rewrite H; [|lia|done|done].
    unfold run_world. change (drop 0 granules) with granules.
    rewrite Hlen, Nat.div_mul, Nat.Div0.mod_mul by lia. done. }
  assert (w1 = with_disk (disk_ok w) (batches m 0 granules v0)) as Hw1.
  { unfold w1. rewrite <- (with_disk_same w) at 1.
    change (with_disk (disk_ok w) w) with (with_disk (disk_ok w) v).
    rewrite after_extraction_disk by done. by rewrite Hv1. }
  assert (dir w1 = dir (batches m 0 granules v0)) as Hdir by by rewrite Hw1.
  assert (listing (dir w1) ≡ₚ names 0 m) as Hperm.
  { rewrite Hdir. by apply listing_batches. }
  split; [done|]. split; [|split].
  - etrans; [apply concat_perm, fmap_Permutation, omap_Permutation, Hperm|].
    fold (files_of (dir w1) (names 0 m)).
    rewrite Hdir, files_of_batches by done.
    rewrite <- list_fmap_compose.
    change (nc_records ∘ _) with (fun j => recs (take n (drop (j * n) granules))).
    rewrite concat_batches by done. rewrite take_ge by lia. done.
  - rewrite Hdir, lookup_batches_miss; [done|].
    intros j _. apply NamingFacts.final_name_not_checkpoint.
  - by rewrite Hw1.
Qed.

Lemma after_extraction_leftover (w : World) :
  leftover (after_extraction self station_code granules lat lon product_type w)
  = leftover w.
Proof.
  clear n_pos batch_size_n.
  unfold after_extraction. cbv zeta. by rewrite extract_loop_leftover.
Qed.

(** A run after a failed write of the final artifact.  From a clean state,
    with [m >= 1] full batches of granules that all extract and checkpoint
    writes that go through, a run whose final write fails raises, and the
    [m] checkpoints are there.  What a second run from the directory left
    does depends on what the failed write left at the final path.  If it
    left nothing, the second run, on a disk that takes the final write,
    extracts no granule and returns the final artifact with exactly the
    records of the granules.  If it left a file, the second run takes that
    file for the final artifact: it returns the final path after the
    existence test alone, the file is the one the failure left, and the
    checkpoints stay unmerged. *)
Theorem retry_after_refused_final_write (m : nat) (w w2 : World) :
  (1 <= m)%nat ->
  length granules = (m * n)%nat ->
  dir w !! final_path = None ->
  listing (dir w) = [] ->
  Naming.plain station_code = true -> Naming.plain product_type = true ->
  all_extract lat lon var_name granules ->
  (forall k, disk_ok w (name k) = true) ->
  disk_ok w final_path = false ->
  dir w2 = dir (snd (run w)) ->
  let content := final_content station_code product_type (dir (snd (run w))) in
  fst (run w) = inl (OSError final_path)
  ∧ length (listing (dir w2)) = m
  ∧ (leftover w final_path content = None ->
     disk_ok w2 final_path = true ->
     fst (run w2) = inr (Some final_path)
     ∧ extractions (new_events w2 (snd (run w2))) = []
     ∧ listing (dir (snd (run w2))) = []
     ∧ exists c,
         dir (snd (run w2)) !! final_path = Some c
         ∧ Sorted time_le (nc_records c)
         ∧ nc_records c ≡ₚ recs granules)
  ∧ (forall f, leftover w final_path content = Some f ->
     fst (run w2) = inr (Some final_path)
     ∧ new_events w2 (snd (run w2)) = [EvExists final_path]
     ∧ dir (snd (run w2)) = dir w2
     ∧ dir w2 !! final_path = Some f
     ∧ length (listing (dir (snd (run w2)))) = m).
Proof.
  intros Hm Hlen Hfin Hclean HS HP Hok Hdisk Hbad Hdir2.
  set (w1 := after_extraction self station_code granules lat lon product_type w).
  destruct (full_batches_directory m w Hlen Hclean Hok Hdisk)
    as (Hperm & Hrecs & Hfin1 & Hdisk1).
  fold w1 in Hperm, Hrecs, Hfin1, Hdisk1.
  assert (length (listing (dir w1)) = m) as Hcount.
  { rewrite Hperm. apply length_batch_names. }
  assert (listing (dir w1) <> []) as Hne.
  { intros H. rewrite H in Hcount. cbn in Hcount. lia. }
  assert (run w = _finalize_station self station_code product_type final_path w1) as Hrun.
  { rewrite extract_and_save_run by done.
    unfold resume_point. rewrite Hclean, Hlen. cbn [length].
    destruct (Z.geb_spec (Z.of_nat 0 * batch_size self) (Z.of_nat (m * n))); [nia|done]. }
  destruct (finalize_outcome self station_code product_type w1 HS HP Hne) as [Hrefused _].
  destruct Hrefused as (R1 & R2 & R3 & _); [by rewrite Hdisk1|].
  rewrite Hrun in *. rewrite R2 in Hdir2.
  set (content1 := final_content station_code product_type (dir w1)) in *.
  assert (forall x, Naming.checkpoint_match station_code product_type x = true ->
            dir w2 !! x = dir w1 !! x) as Hsame.
  { intros x Hx. rewrite Hdir2. apply lookup_failed_write. intros ->.
    by rewrite NamingFacts.final_name_no_match in Hx. }
  assert (listing (dir w2) = listing (dir w1)) as Hl2.
  { apply list_checkpoints_ext. intros x Hx. by rewrite Hsame. }
  assert (final_content station_code product_type (dir w2) = content1) as Hc2.
  { by apply final_content_ext. }
  assert (final_content station_code product_type
            (dir (snd (_finalize_station self station_code product_type final_path w1)))
          = content1) as Hc.
  { rewrite R2, <- Hdir2. exact Hc2. }
  assert (dir w2 !! final_path
          = match leftover w final_path content1 with Some f => Some f | None => None end)
    as Hat.
  { rewrite Hdir2, lookup_failed_write_eq. unfold w1 at 1.
    rewrite after_extraction_leftover. fold w1. by rewrite Hfin1, Hfin. }
  cbv zeta. rewrite Hc.
  split; [done|]. split; [by rewrite Hl2|]. split.
  - intros Hnone Hok2. rewrite Hnone in Hat.
    set (v := checked station_code product_type w2).
    assert (run w2 = _finalize_station self station_code product_type final_path v) as Hrun2.
    { rewrite extract_and_save_run by done.
      unfold resume_point. rewrite Hl2, Hcount, Hlen, batch_size_n.
      destruct (Z.geb_spec (Z.of_nat m * Z.of_nat n) (Z.of_nat (m * n))); [|nia].
      destruct (Z.gtb_spec (Z.of_nat (m * n)) 0); [done|nia]. }
    assert (dir v = dir w2) as Hdirv by done.
    destruct (finalize_outcome self station_code product_type v HS HP) as [_ Hgood];
      [by rewrite Hdirv, Hl2|].
    destruct (Hgood Hok2) as (G1 & G2 & G3 & G4 & _).
    destruct (finalize_effects self station_code product_type v HS HP)
      as (evs & Ht & _ & He).
    rewrite Hrun2. split; [done|]. split; [|split; [done|]].
    + rewrite (new_events_app w2 _
                 ([EvExists final_path; EvGlob station_code product_type] ++ evs)%list).
      * unfold extractions in *. rewrite omap_app, He. done.
      * rewrite Ht. unfold v, checked, emit. cbn. by rewrite <- !app_assoc.
    + eexists. split; [exact G3|]. split; [done|].
      rewrite Hdirv, Hc2. unfold content1.
      etrans; [apply final_content_records|]. exact Hrecs.
  - intros f Hsome. rewrite Hsome in Hat.
    rewrite extract_and_save_short_circuit by (rewrite Hat; by eexists).
    cbn [fst snd]. split; [done|]. split; [by apply new_events_app|].
    split; [done|]. split; [done|]. cbn [dir emit]. by rewrite Hl2.
Qed.

End Retry.

(** ** Instances of the further properties *)

Section MoreCases.
Import Sample Refusals.
#[local] Existing Instance lib.

Local Abbreviation g := (granule "Rrs").
Local Abbreviation name := (Naming.checkpoint_name "ST" "Rrs").
Local Abbreviation final := (Naming.final_name "ST" "Rrs").

(** With batches of two, the global indices 2 and 3 go to the same file. *)
Lemma get_checkpoint_path_same_file_witness :
  _get_checkpoint_path (extractor 2) "ST" "Rrs" 2
  = _get_checkpoint_path (extractor 2) "ST" "Rrs" 3.
Proof.
  refine (proj2 (proj2 (get_checkpoint_path_same_file (extractor 2) "ST" "Rrs" 2 3 _)) _).
  - vm_compute. discriminate.
  - reflexivity.
Defined.

(** In an empty directory the finalizer returns [None]. *)
Lemma finalize_none_iff_no_checkpoint_witness :
  fst (_finalize_station (extractor 2) "ST" "Rrs" final empty_world) = inr None.
Proof.
  refine (proj2 (proj1 (finalize_none_iff_no_checkpoint (extractor 2) "ST" "Rrs" final
                          empty_world _ _)) _).
  - reflexivity.
  - reflexivity.
  - vm_compute. reflexivity.
Defined.

(** The record of the sample granule has as many values as wavelengths. *)
Lemma extract_granule_pixel_record_witness :
  length (rec_spectrum (pixel 7)) = length (rec_wavelength (pixel 7)).
Proof.
  refine (proj1 (proj2 (extract_granule_pixel_record (g "7") lat lon "Rrs" (pixel 7) _))).
  vm_compute. reflexivity.
Defined.

(** A run for the key (ST, Rrs) leaves the final file of (TEST, Rrs) as it
    is. *)
Lemma extract_and_save_touches_own_files_only_witness :
  dir (snd (extract_and_save (extractor 2) "ST" [g "1"; g "2"] lat lon "Rrs" finished_world))
    !! "TEST_Rrs_final.nc"
  = dir finished_world !! "TEST_Rrs_final.nc".
Proof.
  refine (extract_and_save_touches_own_files_only (extractor 2) "ST" "Rrs" [g "1"; g "2"]
            lat lon finished_world "TEST_Rrs_final.nc" _ _ _ _).
  - reflexivity.
  - reflexivity.
  - vm_compute. reflexivity.
  - vm_compute. discriminate.
Defined.

(** The checkpoint a run of one batch writes holds extracted records. *)
Lemma extract_and_save_writes_witness :
  name 1 = final
  ∨ (Naming.checkpoint_match "ST" "Rrs" (name 1) = true
     ∧ nc_records (mkNc [pixel 1; pixel 2] ∅) <> []
     ∧ forall r, r ∈ nc_records (mkNc [pixel 1; pixel 2] ∅) ->
         r ∈ extracted lat lon (var_of "Rrs")
               (py_slice_from [g "1"; g "2"]
                  (resume_point (extractor 2) "ST" "Rrs" empty_world))).
Proof.
  refine (extract_and_save_writes (extractor 2) "ST" "Rrs" [g "1"; g "2"] lat lon
            empty_world (name 1) (mkNc [pixel 1; pixel 2] ∅) _ _ _).
  - reflexivity.
  - reflexivity.
  - vm_compute. constructor.
Defined.

(** A second run right after a run that returned the final path returns it
    again. *)
Lemma extract_and_save_outcome_witness :
  let w := snd (extract_and_save (extractor 2) "ST" [g "1"; g "2"] lat lon "Rrs"
                  empty_world) in
  fst (extract_and_save (extractor 2) "ST" [g "1"; g "2"] lat lon "Rrs" w)
  = inr (Some final).
Proof.
  refine (proj1 (proj2 (proj2 (proj1 (extract_and_save_outcome (extractor 2) "ST" "Rrs"
                                        [g "1"; g "2"] lat lon empty_world _ _)
                                 final _)))).
  - reflexivity.
  - reflexivity.
  - vm_compute. reflexivity.
Defined.

(** With a batch size of 0 two granules that extract give no artifact. *)
Lemma zero_batch_size_saves_nothing_witness :
  fst (extract_and_save (extractor 0) "ST" [g "1"; g "2"] lat lon "Rrs" empty_world)
  = inr None.
Proof.
  refine (proj1 (proj2 (proj2 (proj2 (proj2
            (zero_batch_size_saves_nothing (extractor 0) "ST" "Rrs" [g "1"; g "2"] lat lon
               empty_world _ _ _ _)))) _)).
  - reflexivity.
  - reflexivity.
  - reflexivity.
  - reflexivity.
  - vm_compute. reflexivity.
Defined.

(** With a batch size of 1 and a granule that fails between two that
    extract, the run returns the final artifact. *)
Lemma batch_size_one_loses_no_record_witness :
  exists content,
    fst (extract_and_save (extractor 1) "ST" [g "1"; broken; g "2"] lat lon "Rrs"
           empty_world) = inr (Some final)
    ∧ dir (snd (extract_and_save (extractor 1) "ST" [g "1"; broken; g "2"] lat lon "Rrs"
                  empty_world)) !! final = Some content
    ∧ nc_records content ≡ₚ extracted lat lon (var_of "Rrs") [g "1"; broken; g "2"].
Proof.
  destruct (proj2 (batch_size_one_loses_no_record (extractor 1) "ST" "Rrs"
                     [g "1"; broken; g "2"] lat lon empty_world
                     eq_refl eq_refl eq_refl eq_refl eq_refl (fun _ => eq_refl)))
    as (content & H1 & H2 & _ & H4 & _).
  - vm_compute. discriminate.
  - exists content. by repeat split.
Defined.

(** A run on the refusing disk raises and deletes nothing. *)
Lemma extract_and_save_raises_witness :
  unlinks (new_events refusing_world
             (snd (extract_and_save (extractor 2) "ST" [g "1"; g "2"] lat lon "Rrs"
                     refusing_world)))
  = [].
Proof.
  refine (proj1 (proj2 (proj2 (proj2 (proj2
            (extract_and_save_raises (extractor 2) "ST" "Rrs" [g "1"; g "2"] lat lon
               refusing_world _ _ _)))))).
  - reflexivity.
  - reflexivity.
  - vm_compute. reflexivity.
Defined.

(** One batch of two on the disk where the failed final write leaves
    nothing: the run on the repaired disk returns the final artifact with
    the two records. *)
Example retry_recovers_when_nothing_is_left :
  let w2 := repaired_world [g "1"; g "2"] in
  let second := extract_and_save (extractor 2) "ST" [g "1"; g "2"] lat lon "Rrs" w2 in
  fst second = inr (Some final)
  ∧ (nc_records <$> dir (snd second) !! final) = Some [pixel 1; pixel 2]
  ∧ list_checkpoints "ST" "Rrs" (dir (snd second)) = [].
Proof. cbv zeta. repeat apply conj; vm_compute; reflexivity. Qed.

(** One batch of two on the disk where the failed final write leaves a
    file: the run raises, and a second run from the directory it left
    returns the final path after the existence test alone. *)
Lemma retry_after_refused_final_write_witness :
  let w2 := snd (extract_and_save (extractor 2) "ST" [g "1"; g "2"] lat lon "Rrs"
                   littering_world) in
  fst (extract_and_save (extractor 2) "ST" [g "1"; g "2"] lat lon "Rrs" littering_world)
  = inl (OSError final)
  ∧ fst (extract_and_save (extractor 2) "ST" [g "1"; g "2"] lat lon "Rrs" w2)
    = inr (Some final)
  ∧ new_events w2 (snd (extract_and_save (extractor 2) "ST" [g "1"; g "2"] lat lon "Rrs" w2))
    = [EvExists final].
Proof.
  intros w2.
  destruct (retry_after_refused_final_write (extractor 2) "ST" "Rrs" [g "1"; g "2"] lat lon
              2 ltac:(lia) eq_refl 1 littering_world w2)
    as (H1 & _ & _ & H3).
  - lia.
  - reflexivity.
  - reflexivity.
  - vm_compute. reflexivity.
  - reflexivity.
  - reflexivity.
  - repeat (constructor; [vm_compute; by eexists|]). constructor.
  - intros k. vm_compute. reflexivity.
  - reflexivity.
  - reflexivity.
  - destruct (H3 (mkNc [] ∅)) as (H4 & H5 & _); [vm_compute; reflexivity|].
    split; [exact H1|]. split; [exact H4|exact H5].
Defined.

End MoreCases.
